(** * Lease-based leader election over the agency

    A shallow embedding of [pkg/arangod/agency/election/leader_election.go].

    The election cell talks to its environment (the agency, the wall
    clock, the caller's context) and [Update] loops until the agency
    answers something definite, so the methods are interaction trees: every
    call into the environment is an event, and the [for] loop of [Update]
    is [ITree.iter].  The receiver [l *LeaderElectionCell] is passed in and
    handed back explicitly.

    A run of a method is a leaf of its tree under a handler that logs every
    event with the answer the environment gave: the log is what the agency,
    the clock and the context saw of the call, and the properties below are
    stated on runs and their logs, for all answers of the environment.

    [GetLeaderCondition] only builds a condition for the caller's own
    transactions and takes no part in the election; it is left out. *)

From Stdlib Require Import ZArith List String Bool Lia.
From ITree Require Import ITree ITreeFacts Events.State Events.StateFacts Props.Leaf.
Import ListNotations.
Import ITreeNotations.
Local Open Scope Z_scope.
Local Open Scope itree_scope.

Set Implicit Arguments.

(** ** Package [time]

    An instant is the number of nanoseconds since the Unix epoch and a
    [Duration] a number of nanoseconds (an int64 in Go).  The operations
    follow the documented behaviour of the Go package on the instants it
    can represent.  Two of them meet the limits of an int64 here: [Sub],
    which saturates when the difference does not fit a [Duration], and
    [Unix], which counts the seconds of the instant from year 1 in an int64
    and wraps around when the seconds it is given are too many. *)
Module time.

Definition Duration := Z.
Definition Time := Z.

Definition Nanosecond : Duration := 1.
Definition Millisecond : Duration := 1000000 * Nanosecond.
Definition Second : Duration := 1000 * Millisecond.

Definition minDuration : Duration := - 2 ^ 63.
Definition maxDuration : Duration := 2 ^ 63 - 1.

(** The conversion of an integer to int64: it wraps around. *)
Definition int64 (x : Z) : Z := (x + 2 ^ 63) mod 2 ^ 64 - 2 ^ 63.

(** The seconds from 1 January of year 1, where a [Time] starts to count,
    to the Unix epoch. *)
Definition unixToInternal : Z := (1969 * 365 + 1969 / 4 - 1969 / 100 + 1969 / 400) * 86400.

(** [time.Unix(sec, nsec)]: the whole seconds of [nsec] are carried over
    to [sec], and the seconds are stored as seconds since year 1, in an
    int64.  For [sec] from [2 ^ 63 - unixToInternal] on that sum wraps
    around, and the instant is [2 ^ 64] seconds before the one asked for. *)
Definition Unix (sec nsec : Z) : Time :=
  let sec := int64 (sec + nsec / 1000000000) in
  let nsec := nsec mod 1000000000 in
  (int64 (sec + unixToInternal) - unixToInternal) * Second + nsec.

(** [t.Unix()]: whole seconds since the epoch, rounded down. *)
Definition Time_Unix (t : Time) : Z := t / Second.

(** [t.Add(d)] *)
Definition Time_Add (t : Time) (d : Duration) : Time := t + d.

(** [t.Sub(u)]: the duration [t - u]; when it does not fit a [Duration]
    the minimum or maximum duration is returned. *)
Definition Time_Sub (t u : Time) : Duration :=
  if t - u <? minDuration then minDuration
  else if maxDuration <? t - u then maxDuration
  else t - u.

End time.

Import time.

Definition keyData : string := "data".
Definition keyTTL : string := "ttl".

Record LeaderElectionCell := mkCell {
  lastTTL : Z;
  leading : bool;
  key : list string;
  ttl : Duration
}.

Definition NewLeaderElectionCell (key : list string) (ttl : Duration) : LeaderElectionCell :=
  {| lastTTL := 0; leading := false; key := key; ttl := ttl |}.

Definition set_lastTTL (l : LeaderElectionCell) (v : Z) : LeaderElectionCell :=
  {| lastTTL := v; leading := leading l; key := key l; ttl := ttl l |}.

Definition set_leading (l : LeaderElectionCell) (b : bool) : LeaderElectionCell :=
  {| lastTTL := lastTTL l; leading := b; key := key l; ttl := ttl l |}.

(** The payload type [T comparable]: its zero value ([var def T]) and
    [reflect.DeepEqual] on it. *)
Class Comparable (T : Type) := {
  def : T;
  DeepEqual : T -> T -> bool
}.

(** Go's [error] values (nil is [None] of [option error]) with the two
    classifiers the code uses: [agency.IsKeyNotFound] and
    [driver.IsPreconditionFailed]. *)
Class ErrorKinds (error : Type) := {
  IsKeyNotFound : error -> bool;
  IsPreconditionFailed : error -> bool
}.

Section Election.

Context (T error : Type) `{Comparable T} `{ErrorKinds error}.

Record leaderStruct := mkLeader {
  Data : T;
  TTL : Z
}.

(** *** Package [agency]: transactions as the code builds them *)

Variant KeyConditioner :=
| NewConditionOldEmpty (empty : bool)
| NewConditionIfEqual (value : Z).

Variant KeyChanger :=
| NewKeySet (key : list string) (value : leaderStruct) (ttl : Duration)
| NewKeyDelete (key : list string).

(** The conditions of a transaction are kept per key; each transaction
    built here adds one. *)
Record Transaction := mkTransaction {
  keys : list KeyChanger;
  conditions : list (list string * KeyConditioner)
}.

Definition NewTransaction : Transaction :=
  {| keys := []; conditions := [] |}.

Definition AddKey (trx : Transaction) (k : KeyChanger) : Transaction :=
  {| keys := keys trx ++ [k]; conditions := conditions trx |}.

Definition AddCondition (trx : Transaction) (key : list string) (c : KeyConditioner)
  : Transaction :=
  {| keys := keys trx; conditions := conditions trx ++ [(key, c)] |}.

(** *** The environment

    Every call that leaves the cell is an event: the two agency calls
    (with the timeout put on the derived context), [time.Now],
    [time.Sleep] and [ctx.Err] of the caller's context.  [ReadKey] answers
    with the content of [result] after the call and the error. *)
Variant agencyE : Type -> Type :=
| ReadKey (timeout : Duration) (key : list string) : agencyE (leaderStruct * option error)
| WriteTransaction (timeout : Duration) (trx : Transaction) : agencyE (option error)
| Now : agencyE Time
| Sleep (d : Duration) : agencyE unit
| CtxErr : agencyE (option error).

Definition callTimeout : Duration := 10 * Second.

(** *** The methods *)

Definition tryBecomeLeader (l : LeaderElectionCell) (value : T) (assumeEmpty : bool)
  : itree agencyE (LeaderElectionCell * option error) :=
  let trx := NewTransaction in
  now <- ITree.trigger Now;;
  let newTTL := Time_Unix (Time_Add now (ttl l)) in
  let trx := AddKey trx (NewKeySet (key l) {| Data := value; TTL := newTTL |} 0) in
  let trx :=
    if assumeEmpty then AddCondition trx (key l) (NewConditionOldEmpty true)
    else AddCondition trx (key l ++ [keyTTL]) (NewConditionIfEqual (lastTTL l)) in
  err <- ITree.trigger (WriteTransaction callTimeout trx);;
  match err with
  | None => Ret (set_leading (set_lastTTL l newTTL) true, None)
  | Some e => Ret (l, Some e)
  end.

Definition readCell (l : LeaderElectionCell)
  : itree agencyE (LeaderElectionCell * (leaderStruct * option error)) :=
  '(result, err) <- ITree.trigger (ReadKey callTimeout (key l));;
  match err with
  | Some e => Ret (l, (result, Some e))
  | None => Ret (l, (result, None))
  end.

Definition Read (l : LeaderElectionCell)
  : itree agencyE (LeaderElectionCell * (T * option error)) :=
  '(l, (result, err)) <- readCell l;;
  match err with
  | Some e =>
      if IsKeyNotFound e then Ret (l, (def, None))
      else Ret (l, (def, Some e))
  | None => Ret (l, (Data result, None))
  end.

Definition minUpdateDelay : Duration := Millisecond * 500.

(** What [Update] returns: the value, whether we lead, the delay, the error. *)
Definition UpdateResult : Type := T * bool * Duration * option error.

(** The block at the label [tryLeaderElection]: [inl] goes round the
    loop again, [inr] returns from [Update]. *)
Definition tryLeaderElection (l : LeaderElectionCell) (value : T) (assumeEmpty : bool)
  : itree agencyE (LeaderElectionCell + LeaderElectionCell * UpdateResult) :=
  '(l, err) <- tryBecomeLeader l value assumeEmpty;;
  match err with
  | None => Ret (inr (l, (value, true, Z.quot (ttl l) 2, None)))
  | Some e =>
      if negb (IsPreconditionFailed e) then Ret (inr (l, (def, false, 0, Some e)))
      else
        cerr <- ITree.trigger CtxErr;;
        match cerr with
        | Some _ => Ret (inr (l, (def, false, 0, Some e)))
        | None => ITree.trigger (Sleep minUpdateDelay);; Ret (inl l)
        end
  end.

(** The block of [Update] that looks at what was read. *)
Definition inspectCell (l : LeaderElectionCell) (value : T) (result : leaderStruct)
  : itree agencyE (LeaderElectionCell + LeaderElectionCell * UpdateResult) :=
  now <- ITree.trigger Now;;
  if TTL result <? Time_Unix now then
    (* expired, try to become leader *)
    let l := set_lastTTL l (TTL result) in
    let l := set_leading l false in
    tryLeaderElection l value false
  else
    let l :=
      if (TTL result >? Time_Unix now) && negb (leading l) && (lastTTL l =? 0)
      then
        (* curr leader is not expired yet, but we are not initialized yet *)
        let l := set_lastTTL l (TTL result) in
        set_leading l (DeepEqual (Data result) value)
      else l in
    if (TTL result =? lastTTL l) && leading l then
      (* try to update the ttl *)
      tryLeaderElection l value false
    else
      (* some new leader has been established *)
      let l := set_lastTTL l (TTL result) in
      let l := set_leading l false in
      let updateDelay := Time_Sub (Unix (lastTTL l) 0) now in
      let updateDelay :=
        if updateDelay <? minUpdateDelay then minUpdateDelay (* throttle *)
        else updateDelay in
      Ret (inr (l, (Data result, false, updateDelay, None))).

(** One turn of the [for] loop of [Update]. *)
Definition Update_iteration (value : T) (l : LeaderElectionCell)
  : itree agencyE (LeaderElectionCell + LeaderElectionCell * UpdateResult) :=
  '(l, (result, err)) <- readCell l;;
  match err with
  | Some e =>
      if IsKeyNotFound e then tryLeaderElection l value true
      else inspectCell l value result
  | None => inspectCell l value result
  end.

Definition Update (l : LeaderElectionCell) (value : T)
  : itree agencyE (LeaderElectionCell * UpdateResult) :=
  ITree.iter (Update_iteration value) l.

Definition Resign (l : LeaderElectionCell)
  : itree agencyE (LeaderElectionCell * option error) :=
  if negb (leading l) then Ret (l, None)
  else
    let l := set_leading l false in
    let trx := NewTransaction in
    let key' := key l ++ [keyTTL] in
    let trx := AddCondition trx key' (NewConditionIfEqual (lastTTL l)) in
    let trx := AddKey trx (NewKeyDelete (key l)) in
    err <- ITree.trigger (WriteTransaction callTimeout trx);;
    match err with
    | Some e => if IsPreconditionFailed e then Ret (l, None) else Ret (l, Some e)
    | None => Ret (l, None)
    end.

(** *** Runs

    What the environment saw of a call, in order, with its answers. *)
Variant entry :=
| EvReadKey (timeout : Duration) (key : list string)
            (result : leaderStruct) (err : option error)
| EvWriteTransaction (timeout : Duration) (trx : Transaction) (err : option error)
| EvNow (now : Time)
| EvSleep (d : Duration)
| EvCtxErr (err : option error).

Definition observed {X : Type} (e : agencyE X) : X -> entry :=
  match e in agencyE X return X -> entry with
  | ReadKey timeout key => fun a => EvReadKey timeout key (fst a) (snd a)
  | WriteTransaction timeout trx => fun a => EvWriteTransaction timeout trx a
  | Now => fun a => EvNow a
  | Sleep d => fun _ => EvSleep d
  | CtxErr => fun a => EvCtxErr a
  end.

(** The handler leaves every event to the environment and appends it,
    with the answer, to the log. *)
Definition logging : agencyE ~> Monads.stateT (list entry) (itree agencyE) :=
  fun X e log => a <- ITree.trigger e;; Ret (log ++ [observed e a], a).

(** [Run t log log' r]: started with [log], the call [t] can return [r],
    and the log is then [log']. *)
Definition Run {R : Type} (t : itree agencyE R) (log log' : list entry) (r : R) : Prop :=
  Leaf (log', r) (interp_state logging t log).

(** Runs can be computed: [play fuel t answers log] steps through [t],
    taking the answer to each event from the list [answers], and gives the
    log and the result when [t] returns within [fuel] steps.  An answer of
    the wrong kind, or none left, stops it. *)
Variant answer :=
| AnsReadKey (result : leaderStruct) (err : option error)
| AnsWriteTransaction (err : option error)
| AnsNow (now : Time)
| AnsSleep
| AnsCtxErr (err : option error).

Definition answerTo {X : Type} (e : agencyE X) (a : answer) : option X :=
  match e in agencyE X return option X with
  | ReadKey _ _ =>
      match a with AnsReadKey result err => Some (result, err) | _ => None end
  | WriteTransaction _ _ =>
      match a with AnsWriteTransaction err => Some err | _ => None end
  | Now => match a with AnsNow now => Some now | _ => None end
  | Sleep _ => match a with AnsSleep => Some tt | _ => None end
  | CtxErr => match a with AnsCtxErr err => Some err | _ => None end
  end.

Fixpoint play {R : Type} (fuel : nat) (t : itree agencyE R)
         (answers : list answer) (log : list entry) : option (list entry * R) :=
  match fuel with
  | O => None
  | S fuel =>
      match observe t with
      | RetF r => Some (log, r)
      | TauF t' => play fuel t' answers log
      | VisF e k =>
          match answers with
          | [] => None
          | a :: answers' =>
              match answerTo e a with
              | Some x => play fuel (k x) answers' (log ++ [observed e x])
              | None => None
              end
          end
      end
  end.

(** A loop that returns does so after finitely many turns. *)
Inductive Turns {I R : Type} (body : I -> itree agencyE (I + R))
  : I -> list entry -> list entry -> R -> Prop :=
| Turns_last i log log' r :
    Run (body i) log log' (inr r) -> Turns body i log log' r
| Turns_again i j log log1 log' r :
    Run (body i) log log1 (inl j) -> Turns body j log1 log' r ->
    Turns body i log log' r.

(** An entry of the log is a write transaction. *)
Definition isWrite (e : entry) : bool :=
  match e with
  | EvWriteTransaction _ _ _ => true
  | _ => false
  end.

(** *** The traces of [Update], spelled out

    The relations below list, path by path, what one turn of the loop
    shows to the environment and how it ends.  They define nothing new:
    [Update_iteration_traces] and [Update_traces] prove that they are
    exactly the runs of the code above. *)

Definition notFound (err : option error) : bool :=
  match err with
  | Some e => IsKeyNotFound e
  | None => false
  end.

Definition outcome : Type := LeaderElectionCell + LeaderElectionCell * UpdateResult.

Inductive attemptTrace (l : LeaderElectionCell) (value : T) (assumeEmpty : bool)
  : list entry -> outcome -> Prop :=
| attempt_won now :
    let newTTL := Time_Unix (Time_Add now (ttl l)) in
    attemptTrace l value assumeEmpty
      [EvNow now;
       EvWriteTransaction callTimeout
         {| keys := [NewKeySet (key l) {| Data := value; TTL := newTTL |} 0];
            conditions :=
              [if assumeEmpty then (key l, NewConditionOldEmpty true)
               else (key l ++ [keyTTL], NewConditionIfEqual (lastTTL l))] |}
         None]
      (inr (set_leading (set_lastTTL l newTTL) true,
            (value, true, Z.quot (ttl l) 2, None)))
| attempt_failed now e :
    IsPreconditionFailed e = false ->
    let newTTL := Time_Unix (Time_Add now (ttl l)) in
    attemptTrace l value assumeEmpty
      [EvNow now;
       EvWriteTransaction callTimeout
         {| keys := [NewKeySet (key l) {| Data := value; TTL := newTTL |} 0];
            conditions :=
              [if assumeEmpty then (key l, NewConditionOldEmpty true)
               else (key l ++ [keyTTL], NewConditionIfEqual (lastTTL l))] |}
         (Some e)]
      (inr (l, (def, false, 0, Some e)))
| attempt_cancelled now e c :
    IsPreconditionFailed e = true ->
    let newTTL := Time_Unix (Time_Add now (ttl l)) in
    attemptTrace l value assumeEmpty
      [EvNow now;
       EvWriteTransaction callTimeout
         {| keys := [NewKeySet (key l) {| Data := value; TTL := newTTL |} 0];
            conditions :=
              [if assumeEmpty then (key l, NewConditionOldEmpty true)
               else (key l ++ [keyTTL], NewConditionIfEqual (lastTTL l))] |}
         (Some e);
       EvCtxErr (Some c)]
      (inr (l, (def, false, 0, Some e)))
| attempt_lost now e :
    IsPreconditionFailed e = true ->
    let newTTL := Time_Unix (Time_Add now (ttl l)) in
    attemptTrace l value assumeEmpty
      [EvNow now;
       EvWriteTransaction callTimeout
         {| keys := [NewKeySet (key l) {| Data := value; TTL := newTTL |} 0];
            conditions :=
              [if assumeEmpty then (key l, NewConditionOldEmpty true)
               else (key l ++ [keyTTL], NewConditionIfEqual (lastTTL l))] |}
         (Some e);
       EvCtxErr None;
       EvSleep minUpdateDelay]
      (inl l).

Inductive turnTrace (l : LeaderElectionCell) (value : T)
  : list entry -> outcome -> Prop :=
| turn_absent result e tr x :
    IsKeyNotFound e = true ->
    attemptTrace l value true tr x ->
    turnTrace l value (EvReadKey callTimeout (key l) result (Some e) :: tr) x
| turn_expired result err now tr x :
    notFound err = false ->
    TTL result < Time_Unix now ->
    attemptTrace (set_leading (set_lastTTL l (TTL result)) false) value false tr x ->
    turnTrace l value (EvReadKey callTimeout (key l) result err :: EvNow now :: tr) x
| turn_renew result err now tr x :
    notFound err = false ->
    Time_Unix now <= TTL result ->
    let l1 :=
      if (TTL result >? Time_Unix now) && negb (leading l) && (lastTTL l =? 0)
      then set_leading (set_lastTTL l (TTL result)) (DeepEqual (Data result) value)
      else l in
    (TTL result =? lastTTL l1) && leading l1 = true ->
    attemptTrace l1 value false tr x ->
    turnTrace l value (EvReadKey callTimeout (key l) result err :: EvNow now :: tr) x
| turn_foreign result err now :
    notFound err = false ->
    Time_Unix now <= TTL result ->
    let l1 :=
      if (TTL result >? Time_Unix now) && negb (leading l) && (lastTTL l =? 0)
      then set_leading (set_lastTTL l (TTL result)) (DeepEqual (Data result) value)
      else l in
    (TTL result =? lastTTL l1) && leading l1 = false ->
    let updateDelay := Time_Sub (Unix (TTL result) 0) now in
    turnTrace l value
      [EvReadKey callTimeout (key l) result err; EvNow now]
      (inr (set_leading (set_lastTTL l1 (TTL result)) false,
            (Data result, false,
             if updateDelay <? minUpdateDelay then minUpdateDelay else updateDelay,
             None))).

Inductive updateTrace (value : T)
  : LeaderElectionCell -> list entry -> LeaderElectionCell * UpdateResult -> Prop :=
| update_returns l tr r :
    turnTrace l value tr (inr r) -> updateTrace value l tr r
| update_retries l l1 tr1 tr r :
    turnTrace l value tr1 (inl l1) -> updateTrace value l1 tr r ->
    updateTrace value l (tr1 ++ tr) r.

(** *** Vocabulary for the properties of [Update] *)

(** An entry of the log is a read of the key; is a sleep. *)
Definition isRead (e : entry) : bool :=
  match e with
  | EvReadKey _ _ _ _ => true
  | _ => false
  end.

Definition isSleep (e : entry) : bool :=
  match e with
  | EvSleep _ => true
  | _ => false
  end.

(** What an entry of the log of [Update] on the key [k] with the
    candidate [value] may be: a read of [k], a write that sets [value] at
    [k] under one condition (on [k] being empty or on its ttl field), both
    with the call timeout; a sleep of 500ms; the clock; the context. *)
Definition updateEntry (k : list string) (value : T) (e : entry) : Prop :=
  match e with
  | EvReadKey timeout k' _ _ => timeout = callTimeout /\ k' = k
  | EvWriteTransaction timeout trx _ =>
      timeout = callTimeout /\
      exists expiry condition,
        trx = {| keys := [NewKeySet k {| Data := value; TTL := expiry |} 0];
                 conditions := [condition] |} /\
        (condition = (k, NewConditionOldEmpty true) \/
         exists seen, condition = (k ++ [keyTTL], NewConditionIfEqual seen))
  | EvSleep d => d = minUpdateDelay
  | EvNow _ => True
  | EvCtxErr _ => True
  end.

(** [attemptsAs l value log head l0 assumeEmpty]: once the entries [head]
    are in the log, the call [Update l value] is at the call
    [tryLeaderElection] of the cell [l0] with [assumeEmpty].  Whatever
    follows [head] is a clock reading and the write of that attempt; and
    for every clock reading and every answer to the write the run exists:
    leadership when the write succeeds, the error when it fails (at once
    when the failure is no precondition failure, after asking the context
    when it is one and the context is done), and otherwise, after the
    sleep, the rest of the call is a call of [Update] on [l0]. *)
Definition attemptsAs (l : LeaderElectionCell) (value : T) (log head : list entry)
           (l0 : LeaderElectionCell) (assumeEmpty : bool) : Prop :=
  let write now werr :=
    EvWriteTransaction callTimeout
      {| keys := [NewKeySet (key l0)
                    {| Data := value; TTL := Time_Unix (Time_Add now (ttl l0)) |} 0];
         conditions :=
           [if assumeEmpty then (key l0, NewConditionOldEmpty true)
            else (key l0 ++ [keyTTL], NewConditionIfEqual (lastTTL l0))] |}
      werr in
  (forall rest r,
      Run (Update l value) log (log ++ head ++ rest) r ->
      exists now werr rest', rest = EvNow now :: write now werr :: rest') /\
  (forall now,
      Run (Update l value) log (log ++ head ++ [EvNow now; write now None])
          ({| lastTTL := Time_Unix (Time_Add now (ttl l0)); leading := true;
              key := key l0; ttl := ttl l0 |},
           (value, true, Z.quot (ttl l0) 2, None))) /\
  (forall now e,
      IsPreconditionFailed e = false ->
      Run (Update l value) log (log ++ head ++ [EvNow now; write now (Some e)])
          (l0, (def, false, 0, Some e))) /\
  (forall now e c,
      IsPreconditionFailed e = true ->
      Run (Update l value) log
          (log ++ head ++ [EvNow now; write now (Some e); EvCtxErr (Some c)])
          (l0, (def, false, 0, Some e))) /\
  (forall now e log' r,
      IsPreconditionFailed e = true ->
      Run (Update l0 value)
          (log ++ head ++
           [EvNow now; write now (Some e); EvCtxErr None; EvSleep minUpdateDelay])
          log' r ->
      Run (Update l value) log log' r).

End Election.

Arguments NewTransaction {T}.
Arguments NewKeyDelete {T} key.
Arguments ReadKey {T error} timeout key.
Arguments WriteTransaction {T error} timeout trx.
Arguments Now {T error}.
Arguments Sleep {T error} d.
Arguments CtxErr {T error}.
Arguments tryBecomeLeader {T error} l value assumeEmpty.
Arguments readCell {T error} l.
Arguments Read {T error _ _} l.
Arguments tryLeaderElection {T error _ _} l value assumeEmpty.
Arguments inspectCell {T error _ _} l value result.
Arguments Update_iteration {T error _ _} value l.
Arguments Update {T error _ _} l value.
Arguments Resign {T error _} l.
Arguments EvReadKey {T error} timeout key result err.
Arguments EvWriteTransaction {T error} timeout trx err.
Arguments EvNow {T error} now.
Arguments EvSleep {T error} d.
Arguments EvCtxErr {T error} err.
Arguments AnsReadKey {T error} result err.
Arguments AnsWriteTransaction {T error} err.
Arguments AnsNow {T error} now.
Arguments AnsSleep {T error}.
Arguments AnsCtxErr {T error} err.
Arguments logging {T error} [_] e log.
Arguments isWrite {T error} e.
Arguments isRead {T error} e.
Arguments isSleep {T error} e.
Arguments updateEntry {T error} k value e.
Arguments attemptsAs {T error _ _} l value log head l0 assumeEmpty.
Arguments notFound {error _} err.
Arguments callTimeout : simpl never.
Arguments minUpdateDelay : simpl never.
Arguments keyTTL : simpl never.
Arguments Time_Unix : simpl never.
Arguments Time_Add : simpl never.
Arguments Time_Sub : simpl never.
Arguments Unix : simpl never.
Arguments attemptTrace {T error _ _} l value assumeEmpty _ _.
Arguments turnTrace {T error _ _} l value _ _.
Arguments updateTrace {T error _ _} value _ _ _.

(** ** A concrete election

    The scenario of the package's use: the key [a/leader], a lease of two
    seconds, string payloads, and an agency whose errors are of three
    kinds. *)
Module Scenario.

Variant storeError :=
| ErrKeyNotFound
| ErrPreconditionFailed
| ErrTimeout.

#[export] Instance storeErrorKinds : ErrorKinds storeError := {
  IsKeyNotFound e := match e with ErrKeyNotFound => true | _ => false end;
  IsPreconditionFailed e := match e with ErrPreconditionFailed => true | _ => false end
}.

#[export] Instance stringComparable : Comparable string := {
  def := EmptyString;
  DeepEqual := String.eqb
}.

Definition leaderKey : list string := ["a"; "leader"]%string.
Definition lease : Duration := 2 * Second.

(** A fresh cell, and the cell of a process that leads with expiry 100. *)
Definition fresh : LeaderElectionCell := NewLeaderElectionCell leaderKey lease.
Definition leader100 : LeaderElectionCell :=
  {| lastTTL := 100; leading := true; key := leaderKey; ttl := lease |}.

(** The record of leader ["A"] that expires at second 100. *)
Definition recordA : leaderStruct string := {| Data := "A"%string; TTL := 100 |}.

(** What [ReadKey] leaves in [result] when it fails: the zero record. *)
Definition zeroRecord : leaderStruct string := {| Data := EmptyString; TTL := 0 |}.

(** The clock at second 50. *)
Definition at50 : Time := Unix 50 0.

(** The claim of [value] with expiry [expiry] under [condition]. *)
Definition claim (value : string) (expiry : Z)
           (condition : list string * KeyConditioner) : Transaction string :=
  {| keys := [NewKeySet leaderKey {| Data := value; TTL := expiry |} 0];
     conditions := [condition] |}.

Definition ifEmpty : list string * KeyConditioner :=
  (leaderKey, NewConditionOldEmpty true).
Definition ifTTL (expiry : Z) : list string * KeyConditioner :=
  ((leaderKey ++ [keyTTL])%list, NewConditionIfEqual expiry).

End Scenario.

(** * Reasoning about runs *)

Section Runs.

Context {T error : Type}.

Local Abbreviation E := (agencyE T error).
Local Abbreviation log_t := (list (entry T error)).

Lemma Run_eutt {R : Type} (t u : itree E R) (log log' : log_t) (r : R) :
  t ≈ u -> Run t log log' r -> Run u log log' r.
Proof.
  unfold Run. intros Htu Hrun. rewrite <- Htu. exact Hrun.
Qed.

Lemma Run_Ret {R : Type} (x : R) (log : log_t) : Run (Ret x : itree E R) log log x.
Proof.
  unfold Run. rewrite interp_state_ret. apply Leaf_Ret.
Qed.

Lemma Run_Ret_inv {R : Type} (x r : R) (log log' : log_t) :
  Run (Ret x : itree E R) log log' r -> log' = log /\ r = x.
Proof.
  unfold Run. rewrite interp_state_ret. intros Hleaf.
  apply Leaf_Ret_inv in Hleaf. inversion Hleaf. split; reflexivity.
Qed.

Lemma Run_bind {A R : Type} (t : itree E A) (k : A -> itree E R)
      (log log1 log' : log_t) (a : A) (r : R) :
  Run t log log1 a -> Run (k a) log1 log' r -> Run (ITree.bind t k) log log' r.
Proof.
  unfold Run. intros Ht Hk. rewrite interp_state_bind.
  eapply Leaf_bind; [exact Ht | exact Hk].
Qed.

Lemma Run_bind_inv {A R : Type} (t : itree E A) (k : A -> itree E R)
      (log log' : log_t) (r : R) :
  Run (ITree.bind t k) log log' r ->
  exists log1 a, Run t log log1 a /\ Run (k a) log1 log' r.
Proof.
  unfold Run. rewrite interp_state_bind. intros Hleaf.
  apply Leaf_bind_inv in Hleaf. destruct Hleaf as [[log1 a] [Ht Hk]].
  exists log1, a. split; assumption.
Qed.

Lemma Run_trigger {X : Type} (e : E X) (log : log_t) (a : X) :
  Run (ITree.trigger e) log (log ++ [observed e a]) a.
Proof.
  unfold Run. rewrite interp_state_trigger. unfold logging.
  eapply Leaf_bind with (b := a).
  - unfold ITree.trigger. apply Leaf_Vis with (x := a). apply Leaf_Ret.
  - apply Leaf_Ret.
Qed.

Lemma Run_trigger_inv {X : Type} (e : E X) (log log' : log_t) (a : X) :
  Run (ITree.trigger e) log log' a -> log' = log ++ [observed e a].
Proof.
  unfold Run. rewrite interp_state_trigger. unfold logging. intros Hleaf.
  apply Leaf_bind_inv in Hleaf. destruct Hleaf as [b [_ Hret]].
  apply Leaf_Ret_inv in Hret. inversion Hret. reflexivity.
Qed.

(** What [play] computes is a run. *)
Lemma play_sound {R : Type} (fuel : nat) (t : itree E R)
      (answers : list (answer T error)) (log log' : log_t) (r : R) :
  play fuel t answers log = Some (log', r) -> Run t log log' r.
Proof.
  revert t answers log.
  induction fuel as [| fuel IH]; intros t answers log Hplay; [discriminate |].
  cbn in Hplay. unfold Run. rewrite unfold_interp_state.
  destruct (observe t) as [r0 | t' | X e k]; cbn.
  - inversion Hplay; subst. apply Leaf_Ret.
  - apply Leaf_Tau. apply IH with (answers := answers). exact Hplay.
  - destruct answers as [| a answers']; [discriminate |].
    destruct (answerTo e a) as [x |] eqn:Hanswer; [| discriminate].
    apply Leaf_bind with (b := (log ++ [observed e x], x)).
    + pose proof (Run_trigger e log x) as Htrigger.
      unfold Run in Htrigger. rewrite interp_state_trigger in Htrigger.
      exact Htrigger.
    + cbn. apply Leaf_Tau. apply IH with (answers := answers'). exact Hplay.
Qed.

Lemma Turns_Run {I R : Type} (body : I -> itree E (I + R))
      (i : I) (log log' : log_t) (r : R) :
  Turns body i log log' r -> Run (ITree.iter body i) log log' r.
Proof.
  induction 1 as [i log log' r Hlast | i j log log1 log' r Hturn _ IH].
  - unfold Run. rewrite unfold_iter.
    change (Run (ITree.bind (body i) (fun lr => match lr with
              | inl j => Tau (ITree.iter body j) | inr r0 => Ret r0 end)) log log' r).
    eapply Run_bind; [exact Hlast |]. apply Run_Ret.
  - unfold Run. rewrite unfold_iter.
    change (Run (ITree.bind (body i) (fun lr => match lr with
              | inl j => Tau (ITree.iter body j) | inr r0 => Ret r0 end)) log log' r).
    eapply Run_bind; [exact Hturn |]. cbn.
    eapply Run_eutt; [symmetry; apply tau_eutt | exact IH].
Qed.

Lemma Run_Turns {I R : Type} (body : I -> itree E (I + R))
      (i : I) (log log' : log_t) (r : R) :
  Run (ITree.iter body i) log log' r -> Turns body i log log' r.
Proof.
  unfold Run at 1. intros Hleaf.
  rewrite (@interp_state_iter' _ _ _ logging _ _ body i log) in Hleaf.
  revert Hleaf.
  pose (Inv := fun si : log_t * I =>
    forall log'' r', Turns body (snd si) (fst si) log'' r' -> Turns body i log log'' r').
  pose (Q := fun sr : log_t * R => Turns body i log (fst sr) (snd sr)).
  intros Hleaf.
  change (Q (log', r)).
  revert Hleaf.
  apply (@Leaf_iter_inv E (log_t * R) (log_t * I) _ (log, i) Inv Q).
  - intros [log1 j] x HInv Hx. cbn in Hx.
    apply Leaf_bind_inv in Hx. destruct Hx as [[log2 y] [Hbody Hret]].
    apply Leaf_Ret_inv in Hret. subst x. cbn.
    destruct y as [j' | r']; cbn.
    + intros log'' r'' Hrest. apply HInv. cbn.
      eapply Turns_again; [exact Hbody | exact Hrest].
    + unfold Q. cbn. apply HInv. cbn. apply Turns_last. exact Hbody.
  - intros log'' r' Hrest. exact Hrest.
Qed.

End Runs.

(** Where an entry can sit in a trace that is given entry by entry. *)
Lemma cons_eq_app_cons {A : Type} (x w : A) (l pre post : list A) :
  x :: l = pre ++ w :: post ->
  (pre = [] /\ x = w /\ l = post) \/
  (exists pre', pre = x :: pre' /\ l = pre' ++ w :: post).
Proof.
  destruct pre as [| y pre']; cbn; intros Heq; inversion Heq; subst.
  - left. repeat split; reflexivity.
  - right. exists pre'. split; reflexivity.
Qed.

Lemma nil_eq_app_cons {A : Type} (w : A) (pre post : list A) :
  [] = pre ++ w :: post -> False.
Proof.
  destruct pre; discriminate.
Qed.

(** Finds the entry [w] of [H : e1 :: ... :: l = pre ++ w :: post] among
    the entries the left side spells out. *)
Ltac find_entry H :=
  lazymatch type of H with
  | [] = _ ++ _ :: _ => exfalso; exact (nil_eq_app_cons _ _ _ H)
  | _ :: _ = _ ++ _ :: _ =>
      let Hw := fresh "Hw" in
      let Hpre := fresh "Hpre" in
      let Hpost := fresh "Hpost" in
      apply cons_eq_app_cons in H;
      destruct H as [(Hpre & Hw & Hpost) | (? & Hpre & H)];
      [ try discriminate Hw; try (inversion Hw; clear Hw); subst
      | lazymatch type of Hpre with ?p = _ => try subst p end; find_entry H ]
  | _ => idtac
  end.

(** Takes a run of straight-line code apart, event by event. *)
Ltac run_inv :=
  repeat match goal with
  | H : Run (ITree.bind _ _) _ _ _ |- _ =>
      let H1 := fresh "Hrun" in
      apply Run_bind_inv in H; destruct H as (? & ? & H1 & H)
  | H : Run (ITree.trigger _) _ _ _ |- _ =>
      apply Run_trigger_inv in H; cbn in H; subst
  | H : Run (Ret _) _ _ _ |- _ =>
      apply Run_Ret_inv in H; destruct H; subst
  | H : Run (match ?x with _ => _ end) _ _ _ |- _ =>
      destruct x eqn:?; cbn in H
  end.

(** Building a run: answer the next event with [a], or return. *)
Ltac run_answer a :=
  eapply Run_bind; [apply (Run_trigger _ _ a) | cbn].

Ltac run_return :=
  match goal with
  | |- Run (Ret _) ?log ?log' _ =>
      replace log' with log by (cbn; repeat rewrite <- app_assoc; reflexivity);
      apply Run_Ret
  end.

Section Methods.

Context {T error : Type} `{Comparable T} `{ErrorKinds error}.

Local Abbreviation log_t := (list (entry T error)).

Lemma readCell_inv (l l' : LeaderElectionCell) (log log' : log_t)
      (result : leaderStruct T) (err : option error) :
  Run (readCell l) log log' (l', (result, err)) ->
  l' = l /\ log' = log ++ [EvReadKey callTimeout (key l) result err].
Proof.
  unfold readCell. intros Hrun. run_inv.
  all: match goal with Heq : (_, _) = (_, _) |- _ => inversion Heq; subst end.
  all: split; reflexivity.
Qed.

Lemma readCell_run (l : LeaderElectionCell) (log : log_t)
      (result : leaderStruct T) (err : option error) :
  Run (readCell l) log (log ++ [EvReadKey callTimeout (key l) result err])
      (l, (result, err)).
Proof.
  unfold readCell. run_answer (result, err).
  destruct err; run_return.
Qed.

Lemma tryLeaderElection_inv (l : LeaderElectionCell) (value : T) (assumeEmpty : bool)
      (log log' : log_t) (x : outcome T error) :
  Run (tryLeaderElection l value assumeEmpty) log log' x ->
  exists tr, log' = log ++ tr /\ attemptTrace l value assumeEmpty tr x.
Proof.
  unfold tryLeaderElection, tryBecomeLeader. intros Hrun.
  destruct assumeEmpty; run_inv.
  all: repeat match goal with
       | Heq : (_, _) = (_, _) |- _ => inversion Heq; subst; clear Heq
       end.
  all: eexists; split; [repeat rewrite <- app_assoc; cbn; reflexivity |].
  all: try match goal with u : unit |- _ => destruct u end.
  all: first
    [ exact (attempt_won _ _ _ _)
    | refine (attempt_failed _ _ _ _ _ _); apply negb_true_iff; assumption
    | refine (attempt_cancelled _ _ _ _ _ _ _); apply negb_false_iff; assumption
    | refine (attempt_lost _ _ _ _ _ _); apply negb_false_iff; assumption ].
Qed.

Lemma tryLeaderElection_run (l : LeaderElectionCell) (value : T) (assumeEmpty : bool)
      (log : log_t) (tr : log_t) (x : outcome T error) :
  attemptTrace l value assumeEmpty tr x ->
  Run (tryLeaderElection l value assumeEmpty) log (log ++ tr) x.
Proof.
  unfold tryLeaderElection, tryBecomeLeader.
  intros Htr.
  destruct Htr as [now | now e Hpf | now e c Hpf | now e Hpf].
  - destruct assumeEmpty.
    all: eapply Run_bind;
      [ run_answer now; run_answer (@None error); apply Run_Ret
      | cbn; run_return ].
  - destruct assumeEmpty.
    all: eapply Run_bind;
      [ run_answer now; run_answer (Some e); apply Run_Ret
      | cbn; rewrite Hpf; cbn; run_return ].
  - destruct assumeEmpty.
    all: eapply Run_bind;
      [ run_answer now; run_answer (Some e); apply Run_Ret
      | cbn; rewrite Hpf; cbn; run_answer (Some c); run_return ].
  - destruct assumeEmpty.
    all: eapply Run_bind;
      [ run_answer now; run_answer (Some e); apply Run_Ret
      | cbn; rewrite Hpf; cbn; run_answer (@None error); run_answer tt; run_return ].
Qed.

Lemma inspectCell_inv (l : LeaderElectionCell) (value : T)
      (result : leaderStruct T) (err : option error)
      (log log' : log_t) (x : outcome T error) :
  notFound err = false ->
  Run (inspectCell l value result) (log ++ [EvReadKey callTimeout (key l) result err]) log' x ->
  exists tr, log' = log ++ tr /\ turnTrace l value tr x.
Proof.
  intros Hnf Hrun. unfold inspectCell in Hrun.
  apply Run_bind_inv in Hrun. destruct Hrun as (log1 & now & Hnow & Hrun).
  apply Run_trigger_inv in Hnow. cbn in Hnow. subst log1.
  destruct (TTL result <? Time_Unix now) eqn:Hexpired.
  - apply tryLeaderElection_inv in Hrun. destruct Hrun as (tr & -> & Htr).
    eexists. split; [repeat rewrite <- app_assoc; cbn; reflexivity |].
    apply turn_expired; [assumption | apply Z.ltb_lt; assumption | assumption].
  - apply Z.ltb_ge in Hexpired.
    match type of Hrun with
    | Run (if (?c && leading ?l1) then _ else _) _ _ _ =>
        destruct (c && leading l1) eqn:Hmine
    end.
    + apply tryLeaderElection_inv in Hrun. destruct Hrun as (tr & -> & Htr).
      eexists. split; [repeat rewrite <- app_assoc; cbn; reflexivity |].
      eapply turn_renew; eassumption.
    + apply Run_Ret_inv in Hrun. destruct Hrun as [-> ->].
      eexists. split; [repeat rewrite <- app_assoc; cbn; reflexivity |].
      exact (turn_foreign l value result err now Hnf Hexpired Hmine).
Qed.

Lemma Update_iteration_inv (l : LeaderElectionCell) (value : T)
      (log log' : log_t) (x : outcome T error) :
  Run (Update_iteration value l) log log' x ->
  exists tr, log' = log ++ tr /\ turnTrace l value tr x.
Proof.
  unfold Update_iteration. intros Hrun.
  apply Run_bind_inv in Hrun.
  destruct Hrun as (log1 & [l0 [result err]] & Hread & Hrun).
  apply readCell_inv in Hread. destruct Hread as [-> ->].
  destruct err as [e |]; [destruct (IsKeyNotFound e) eqn:Hnf |].
  - apply tryLeaderElection_inv in Hrun. destruct Hrun as (tr & -> & Htr).
    eexists. split; [repeat rewrite <- app_assoc; cbn; reflexivity |].
    apply turn_absent; assumption.
  - eapply inspectCell_inv; [| exact Hrun]. exact Hnf.
  - eapply inspectCell_inv; [| exact Hrun]. reflexivity.
Qed.

Lemma Update_iteration_run (l : LeaderElectionCell) (value : T)
      (log tr : log_t) (x : outcome T error) :
  turnTrace l value tr x -> Run (Update_iteration value l) log (log ++ tr) x.
Proof.
  intros Htr. unfold Update_iteration.
  destruct Htr as [result e tr x Hnf Hatt
                  | result err now tr x Hnf Hexp Hatt
                  | result err now tr x Hnf Hexp l1 Hmine Hatt
                  | result err now Hnf Hexp l1 Hmine updateDelay].
  - eapply Run_bind; [apply (readCell_run l log result (Some e)) |].
    cbn. rewrite Hnf.
    replace (log ++ EvReadKey callTimeout (key l) result (Some e) :: tr)
      with ((log ++ [EvReadKey callTimeout (key l) result (Some e)]) ++ tr)
      by (rewrite <- app_assoc; reflexivity).
    apply tryLeaderElection_run. exact Hatt.
  - eapply Run_bind; [apply (readCell_run l log result err) |].
    assert (Hinspect : Run (inspectCell l value result)
              (log ++ [EvReadKey callTimeout (key l) result err])
              (log ++ EvReadKey callTimeout (key l) result err :: EvNow now :: tr) x).
    { unfold inspectCell. run_answer now.
      apply Z.ltb_lt in Hexp. rewrite Hexp.
      replace (log ++ EvReadKey callTimeout (key l) result err :: EvNow now :: tr)
        with (((log ++ [EvReadKey callTimeout (key l) result err]) ++ [EvNow now]) ++ tr)
        by (repeat rewrite <- app_assoc; reflexivity).
      apply tryLeaderElection_run. exact Hatt. }
    cbn. destruct err as [e |]; [cbn in Hnf; rewrite Hnf |]; exact Hinspect.
  - eapply Run_bind; [apply (readCell_run l log result err) |].
    assert (Hinspect : Run (inspectCell l value result)
              (log ++ [EvReadKey callTimeout (key l) result err])
              (log ++ EvReadKey callTimeout (key l) result err :: EvNow now :: tr) x).
    { unfold inspectCell. run_answer now.
      apply Z.ltb_ge in Hexp. rewrite Hexp.
      fold l1. rewrite Hmine.
      replace (log ++ EvReadKey callTimeout (key l) result err :: EvNow now :: tr)
        with (((log ++ [EvReadKey callTimeout (key l) result err]) ++ [EvNow now]) ++ tr)
        by (repeat rewrite <- app_assoc; reflexivity).
      apply tryLeaderElection_run. exact Hatt. }
    cbn. destruct err as [e |]; [cbn in Hnf; rewrite Hnf |]; exact Hinspect.
  - eapply Run_bind; [apply (readCell_run l log result err) |].
    assert (Hinspect : Run (inspectCell l value result)
              (log ++ [EvReadKey callTimeout (key l) result err])
              (log ++ [EvReadKey callTimeout (key l) result err; EvNow now])
              (inr (set_leading (set_lastTTL l1 (TTL result)) false,
                    (Data result, false,
                     if updateDelay <? minUpdateDelay then minUpdateDelay
                     else updateDelay, None)))).
    { unfold inspectCell. run_answer now.
      apply Z.ltb_ge in Hexp. rewrite Hexp.
      fold l1. rewrite Hmine. run_return. }
    cbn. destruct err as [e |]; [cbn in Hnf; rewrite Hnf |]; exact Hinspect.
Qed.

(** The runs of one turn of the loop are the traces listed by [turnTrace]. *)
Lemma Update_iteration_traces (l : LeaderElectionCell) (value : T)
      (log log' : log_t) (x : outcome T error) :
  Run (Update_iteration value l) log log' x <->
  exists tr, log' = log ++ tr /\ turnTrace l value tr x.
Proof.
  split.
  - apply Update_iteration_inv.
  - intros (tr & -> & Htr). apply Update_iteration_run. exact Htr.
Qed.

(** The runs of [Update] are the traces listed by [updateTrace]. *)
Lemma Update_traces (l : LeaderElectionCell) (value : T)
      (log log' : log_t) (r : LeaderElectionCell * UpdateResult T error) :
  Run (Update l value) log log' r <->
  exists tr, log' = log ++ tr /\ updateTrace value l tr r.
Proof.
  unfold Update. split.
  - intros Hrun. apply Run_Turns in Hrun.
    induction Hrun as [l log log' r Hlast | l l1 log log1 log' r Hturn _ IH].
    + apply Update_iteration_inv in Hlast. destruct Hlast as (tr & -> & Htr).
      exists tr. split; [reflexivity | apply update_returns; exact Htr].
    + apply Update_iteration_inv in Hturn. destruct Hturn as (tr1 & -> & Htr1).
      destruct IH as (tr & -> & Htr).
      exists (tr1 ++ tr). split; [rewrite app_assoc; reflexivity |].
      eapply update_retries; eassumption.
  - intros (tr & -> & Htr). apply Turns_Run.
    revert log. induction Htr as [l tr r Hlast | l l1 tr1 tr r Hturn _ IH]; intros log.
    + apply Turns_last. apply Update_iteration_run. exact Hlast.
    + rewrite app_assoc. eapply Turns_again.
      * apply Update_iteration_run. exact Hturn.
      * apply IH.
Qed.

(** *** Facts about the traces *)

Lemma attemptTrace_cell (l : LeaderElectionCell) (value : T) (assumeEmpty : bool)
      (tr : log_t) (x : outcome T error) :
  attemptTrace l value assumeEmpty tr x ->
  match x with
  | inl l1 => l1 = l
  | inr (l', _) => key l' = key l /\ ttl l' = ttl l
  end.
Proof.
  intros Hatt. destruct Hatt; cbn; auto.
Qed.

Lemma turnTrace_cell (l : LeaderElectionCell) (value : T)
      (tr : log_t) (x : outcome T error) :
  turnTrace l value tr x ->
  match x with
  | inl l1 => key l1 = key l /\ ttl l1 = ttl l
  | inr (l', _) => key l' = key l /\ ttl l' = ttl l
  end.
Proof.
  intros Hturn.
  destruct Hturn as [result e tr x Hnf Hatt
                    | result err now tr x Hnf Hexp Hatt
                    | result err now tr x Hnf Hexp l1 Hmine Hatt
                    | result err now Hnf Hexp l1 Hmine updateDelay].
  1-3: apply attemptTrace_cell in Hatt; destruct x as [l2 | [l2 r]]; subst; cbn.
  all: try (destruct Hatt as [-> ->]); cbn; auto.
  all: subst l1;
    destruct ((TTL result >? Time_Unix now) && negb (leading l) && (lastTTL l =? 0));
    cbn; auto.
Qed.

Lemma turnTrace_starts (l : LeaderElectionCell) (value : T)
      (tr : log_t) (x : outcome T error) :
  turnTrace l value tr x ->
  exists result rerr rest, tr = EvReadKey callTimeout (key l) result rerr :: rest.
Proof.
  intros Hturn. destruct Hturn; eauto.
Qed.

Lemma updateTrace_cell (value : T) (l l' : LeaderElectionCell) (tr : log_t)
      (res : UpdateResult T error) :
  updateTrace value l tr (l', res) -> key l' = key l /\ ttl l' = ttl l.
Proof.
  intros Hupd. remember (l', res) as r eqn:Hr.
  induction Hupd as [l tr r Hlast | l l1 tr1 tr r Hturn _ IH]; subst r.
  - apply turnTrace_cell in Hlast. exact Hlast.
  - apply turnTrace_cell in Hturn. destruct Hturn as [Hk Ht].
    destruct (IH eq_refl) as [Hk' Ht']. split; congruence.
Qed.

Lemma updateTrace_starts (value : T) (l : LeaderElectionCell) (tr : log_t)
      (r : LeaderElectionCell * UpdateResult T error) :
  updateTrace value l tr r ->
  exists result rerr rest, tr = EvReadKey callTimeout (key l) result rerr :: rest.
Proof.
  intros Hupd. destruct Hupd as [l tr r Hlast | l l1 tr1 tr r Hturn _].
  - eapply turnTrace_starts; eassumption.
  - apply turnTrace_starts in Hturn. destruct Hturn as (result & rerr & rest & ->).
    exists result, rerr, (rest ++ tr). reflexivity.
Qed.

(** What surrounds a write transaction in the trace of an attempt, and
    how the attempt ends, by the answer to the write. *)
Lemma attemptTrace_write (l : LeaderElectionCell) (value : T) (assumeEmpty : bool)
      (tr pre post : log_t) (x : outcome T error)
      (timeout : Duration) (trx : Transaction T) (werr : option error) :
  attemptTrace l value assumeEmpty tr x ->
  tr = pre ++ EvWriteTransaction timeout trx werr :: post ->
  exists now,
    pre = [EvNow now] /\
    timeout = callTimeout /\
    trx = {| keys := [NewKeySet (key l)
                        {| Data := value; TTL := Time_Unix (Time_Add now (ttl l)) |} 0];
             conditions :=
               [if assumeEmpty then (key l, NewConditionOldEmpty true)
                else (key l ++ [keyTTL], NewConditionIfEqual (lastTTL l))] |} /\
    match werr with
    | None =>
        post = [] /\
        x = inr (set_leading (set_lastTTL l (Time_Unix (Time_Add now (ttl l)))) true,
                 (value, true, Z.quot (ttl l) 2, None))
    | Some e =>
        if IsPreconditionFailed e then
          (exists c, post = [EvCtxErr (Some c)] /\ x = inr (l, (def, false, 0, Some e))) \/
          (post = [EvCtxErr None; EvSleep minUpdateDelay] /\ x = inl l)
        else post = [] /\ x = inr (l, (def, false, 0, Some e))
    end.
Proof.
  intros Hatt Heq.
  destruct Hatt as [now | now e Hpf | now e c Hpf | now e Hpf].
  all: find_entry Heq.
  all: exists now; repeat split; try reflexivity.
  all: rewrite Hpf; eauto.
Qed.

(** The same for one turn of the loop: a write is the write of the
    attempt of that turn, which comes after the read (and, unless the
    key was not found, after the clock reading that dated the record). *)
Lemma turnTrace_write (l : LeaderElectionCell) (value : T)
      (tr pre post : log_t) (x : outcome T error)
      (timeout : Duration) (trx : Transaction T) (werr : option error) :
  turnTrace l value tr x ->
  tr = pre ++ EvWriteTransaction timeout trx werr :: post ->
  exists result rerr now,
    (if notFound rerr
     then pre = [EvReadKey callTimeout (key l) result rerr; EvNow now]
     else exists now0,
         pre = [EvReadKey callTimeout (key l) result rerr; EvNow now0; EvNow now]) /\
    timeout = callTimeout /\
    trx = {| keys := [NewKeySet (key l)
                        {| Data := value; TTL := Time_Unix (Time_Add now (ttl l)) |} 0];
             conditions :=
               [if notFound rerr then (key l, NewConditionOldEmpty true)
                else (key l ++ [keyTTL], NewConditionIfEqual (TTL result))] |} /\
    match werr with
    | None =>
        post = [] /\
        x = inr ({| lastTTL := Time_Unix (Time_Add now (ttl l)); leading := true;
                    key := key l; ttl := ttl l |},
                 (value, true, Z.quot (ttl l) 2, None))
    | Some e =>
        if IsPreconditionFailed e then
          (exists c l', post = [EvCtxErr (Some c)] /\
                        x = inr (l', (def, false, 0, Some e))) \/
          (exists l1, post = [EvCtxErr None; EvSleep minUpdateDelay] /\ x = inl l1)
        else post = [] /\ exists l', x = inr (l', (def, false, 0, Some e))
    end.
Proof.
  intros Hturn Heq.
  destruct Hturn as [result e tr x Hnf Hatt
                    | result err now0 tr x Hnf Hexp Hatt
                    | result err now0 tr x Hnf Hexp l1 Hmine Hatt
                    | result err now0 Hnf Hexp l1 Hmine updateDelay].
  - find_entry Heq.
    destruct (attemptTrace_write _ _ _ _ _ Hatt Heq) as (now & -> & -> & -> & Hend).
    exists result, (Some e), now. cbn. rewrite Hnf.
    repeat split.
    destruct werr as [e' |]; [destruct (IsPreconditionFailed e') |].
    + destruct Hend as [(c & -> & ->) | (-> & ->)]; eauto.
    + destruct Hend as [-> ->]; eauto.
    + exact Hend.
  - find_entry Heq.
    destruct (attemptTrace_write _ _ _ _ _ Hatt Heq) as (now & -> & -> & -> & Hend).
    exists result, err, now. rewrite Hnf.
    repeat split; [eauto |].
    destruct werr as [e' |]; [destruct (IsPreconditionFailed e') |].
    + destruct Hend as [(c & -> & ->) | (-> & ->)]; eauto.
    + destruct Hend as [-> ->]; eauto.
    + exact Hend.
  - find_entry Heq.
    destruct (attemptTrace_write _ _ _ _ _ Hatt Heq) as (now & -> & -> & -> & Hend).
    apply andb_true_iff in Hmine. destruct Hmine as [Hsame Hlead].
    apply Z.eqb_eq in Hsame.
    assert (Hkey : key l1 = key l /\ ttl l1 = ttl l).
    { subst l1.
      destruct ((TTL result >? Time_Unix now0) && negb (leading l) && (lastTTL l =? 0));
        split; reflexivity. }
    destruct Hkey as [Hk Ht].
    exists result, err, now. rewrite Hnf.
    rewrite Hk, Ht in *. rewrite <- Hsame.
    repeat split; [eauto |].
    destruct werr as [e' |]; [destruct (IsPreconditionFailed e') |].
    + destruct Hend as [(c & -> & ->) | (-> & ->)]; eauto.
    + destruct Hend as [-> ->]; eauto.
    + destruct Hend as [-> ->]. split; [reflexivity |].
      unfold set_leading, set_lastTTL. cbn. rewrite Hk, Ht. reflexivity.
  - find_entry Heq.
Qed.

(** And for a whole call of [Update]: every write is the write of an
    attempt; by its answer the call ends there, or ends after asking the
    context, or sleeps and goes through [Update] again. *)
Lemma updateTrace_write (value : T) (l : LeaderElectionCell)
      (tr pre post : log_t) (r : LeaderElectionCell * UpdateResult T error)
      (timeout : Duration) (trx : Transaction T) (werr : option error) :
  updateTrace value l tr r ->
  tr = pre ++ EvWriteTransaction timeout trx werr :: post ->
  exists pre0 result rerr now,
    (if notFound rerr
     then pre = pre0 ++ [EvReadKey callTimeout (key l) result rerr; EvNow now]
     else exists now0,
         pre = pre0 ++
               [EvReadKey callTimeout (key l) result rerr; EvNow now0; EvNow now]) /\
    timeout = callTimeout /\
    trx = {| keys := [NewKeySet (key l)
                        {| Data := value; TTL := Time_Unix (Time_Add now (ttl l)) |} 0];
             conditions :=
               [if notFound rerr then (key l, NewConditionOldEmpty true)
                else (key l ++ [keyTTL], NewConditionIfEqual (TTL result))] |} /\
    match werr with
    | None =>
        post = [] /\
        r = ({| lastTTL := Time_Unix (Time_Add now (ttl l)); leading := true;
                key := key l; ttl := ttl l |},
             (value, true, Z.quot (ttl l) 2, None))
    | Some e =>
        if IsPreconditionFailed e then
          (exists c l', post = [EvCtxErr (Some c)] /\
                        r = (l', (def, false, 0, Some e))) \/
          (exists l1 rest,
              post = EvCtxErr None :: EvSleep minUpdateDelay :: rest /\
              key l1 = key l /\ ttl l1 = ttl l /\
              updateTrace value l1 rest r)
        else post = [] /\ exists l', r = (l', (def, false, 0, Some e))
    end.
Proof.
  intros Hupd. revert pre.
  induction Hupd as [l tr r Hlast | l l1 tr1 tr r Hturn Hrest IH]; intros pre Heq.
  - destruct (turnTrace_write _ _ _ _ _ Hlast Heq)
      as (result & rerr & now & Hpre & -> & -> & Hend).
    exists [], result, rerr, now. cbn.
    repeat split; [exact Hpre |].
    destruct werr as [e |]; [destruct (IsPreconditionFailed e) |].
    + destruct Hend as [(c & l' & -> & Hx) | (l1 & _ & Hx)]; [| discriminate Hx].
      inversion Hx; subst. left. eauto.
    + destruct Hend as (-> & l' & Hx). inversion Hx; subst. eauto.
    + destruct Hend as (-> & Hx). inversion Hx; subst. split; reflexivity.
  - pose proof (turnTrace_cell Hturn) as [Hk Ht]. cbn in Hk, Ht.
    assert (Hlater : forall m, pre = tr1 ++ m ->
              tr = m ++ EvWriteTransaction timeout trx werr :: post ->
              exists pre0 result rerr now,
                (if notFound rerr
                 then pre = pre0 ++ [EvReadKey callTimeout (key l) result rerr; EvNow now]
                 else exists now0,
                     pre = pre0 ++
                       [EvReadKey callTimeout (key l) result rerr;
                        EvNow now0; EvNow now]) /\
                timeout = callTimeout /\
                trx = {| keys := [NewKeySet (key l)
                           {| Data := value;
                              TTL := Time_Unix (Time_Add now (ttl l)) |} 0];
                         conditions :=
                           [if notFound rerr then (key l, NewConditionOldEmpty true)
                            else (key l ++ [keyTTL],
                                  NewConditionIfEqual (TTL result))] |} /\
                match werr with
                | None =>
                    post = [] /\
                    r = ({| lastTTL := Time_Unix (Time_Add now (ttl l));
                            leading := true; key := key l; ttl := ttl l |},
                         (value, true, Z.quot (ttl l) 2, None))
                | Some e =>
                    if IsPreconditionFailed e then
                      (exists c l', post = [EvCtxErr (Some c)] /\
                                    r = (l', (def, false, 0, Some e))) \/
                      (exists l2 rest,
                          post = EvCtxErr None :: EvSleep minUpdateDelay :: rest /\
                          key l2 = key l /\ ttl l2 = ttl l /\
                          updateTrace value l2 rest r)
                    else post = [] /\ exists l', r = (l', (def, false, 0, Some e))
                end).
    { intros m -> Hm.
      destruct (IH m Hm) as (pre0 & result & rerr & now & Hpre & -> & -> & Hend).
      rewrite Hk, Ht in *.
      exists (tr1 ++ pre0), result, rerr, now.
      repeat split.
      - destruct (notFound rerr).
        + rewrite Hpre. rewrite app_assoc. reflexivity.
        + destruct Hpre as (now0 & ->). exists now0. rewrite app_assoc. reflexivity.
      - exact Hend. }
    apply app_eq_app in Heq. destruct Heq as (m & [[Htr1 Hw] | [Hpre Htr]]).
    + destruct m as [| w m'].
      * cbn in Hw. apply (Hlater []); [| symmetry; exact Hw].
        rewrite Htr1. rewrite !app_nil_r. reflexivity.
      * cbn in Hw. inversion Hw; subst w post. clear Hw.
        destruct (turnTrace_write _ _ _ _ _ Hturn Htr1)
          as (result & rerr & now & Hpre & -> & -> & Hend).
        exists [], result, rerr, now. cbn.
        repeat split; [exact Hpre |].
        destruct werr as [e |]; [destruct (IsPreconditionFailed e) |].
        -- destruct Hend as [(c & l' & _ & Hx) | (l2 & -> & Hx)]; [discriminate Hx |].
           inversion Hx; subst l2. right.
           exists l1, tr. repeat split; assumption.
        -- destruct Hend as (_ & l' & Hx). discriminate Hx.
        -- destruct Hend as (_ & Hx). discriminate Hx.
    + apply (Hlater m); assumption.
Qed.

(** A turn that issues a write is, up to the clock reading before the
    write, at an attempt of some cell with the key and the lease of the
    turn's cell: whatever that attempt can do from there, the turn can. *)
Lemma turnTrace_replay (l : LeaderElectionCell) (value : T)
      (tr pre post : log_t) (x : outcome T error)
      (timeout : Duration) (trx : Transaction T) (werr : option error) :
  turnTrace l value tr x ->
  tr = pre ++ EvWriteTransaction timeout trx werr :: post ->
  exists (l0 : LeaderElectionCell) (assumeEmpty : bool) (now : Time) (pre1 : log_t),
    pre = pre1 ++ [EvNow now] /\
    key l0 = key l /\ ttl l0 = ttl l /\
    timeout = callTimeout /\
    trx = {| keys := [NewKeySet (key l0)
                        {| Data := value; TTL := Time_Unix (Time_Add now (ttl l0)) |} 0];
             conditions :=
               [if assumeEmpty then (key l0, NewConditionOldEmpty true)
                else (key l0 ++ [keyTTL], NewConditionIfEqual (lastTTL l0))] |} /\
    forall tr' x', attemptTrace l0 value assumeEmpty (EvNow now :: tr') x' ->
                   turnTrace l value (pre ++ tr') x'.
Proof.
  intros Hturn Heq.
  destruct Hturn as [result e tr x Hnf Hatt
                    | result err now0 tr x Hnf Hexp Hatt
                    | result err now0 tr x Hnf Hexp l1 Hmine Hatt
                    | result err now0 Hnf Hexp l1 Hmine updateDelay].
  - find_entry Heq.
    destruct (attemptTrace_write _ _ _ _ _ Hatt Heq) as (now & -> & -> & -> & _).
    exists l, true, now, [EvReadKey callTimeout (key l) result (Some e)].
    repeat split. intros tr' x' Hatt'.
    exact (turn_absent result e Hnf Hatt').
  - find_entry Heq.
    destruct (attemptTrace_write _ _ _ _ _ Hatt Heq) as (now & -> & -> & -> & _).
    exists (set_leading (set_lastTTL l (TTL result)) false), false, now,
      [EvReadKey callTimeout (key l) result err; EvNow now0].
    repeat split. intros tr' x' Hatt'.
    exact (turn_expired result err now0 Hnf Hexp Hatt').
  - find_entry Heq.
    destruct (attemptTrace_write _ _ _ _ _ Hatt Heq) as (now & -> & -> & -> & _).
    exists l1, false, now, [EvReadKey callTimeout (key l) result err; EvNow now0].
    assert (Hkey : key l1 = key l /\ ttl l1 = ttl l).
    { subst l1.
      destruct ((TTL result >? Time_Unix now0) && negb (leading l) && (lastTTL l =? 0));
        split; reflexivity. }
    destruct Hkey as [Hk Ht].
    repeat split; try assumption. intros tr' x' Hatt'.
    exact (turn_renew l result err now0 Hnf Hexp Hmine Hatt').
  - find_entry Heq.
Qed.

(** The same for a whole call: what the attempt can do from there, the
    call can; when the attempt loses the race, the call goes on as a call of
    [Update] with the cell of the attempt. *)
Lemma updateTrace_replay (value : T) (l : LeaderElectionCell)
      (tr pre post : log_t) (r : LeaderElectionCell * UpdateResult T error)
      (timeout : Duration) (trx : Transaction T) (werr : option error) :
  updateTrace value l tr r ->
  tr = pre ++ EvWriteTransaction timeout trx werr :: post ->
  exists (l0 : LeaderElectionCell) (assumeEmpty : bool) (now : Time) (pre1 : log_t),
    pre = pre1 ++ [EvNow now] /\
    key l0 = key l /\ ttl l0 = ttl l /\
    timeout = callTimeout /\
    trx = {| keys := [NewKeySet (key l0)
                        {| Data := value; TTL := Time_Unix (Time_Add now (ttl l0)) |} 0];
             conditions :=
               [if assumeEmpty then (key l0, NewConditionOldEmpty true)
                else (key l0 ++ [keyTTL], NewConditionIfEqual (lastTTL l0))] |} /\
    forall tr' x', attemptTrace l0 value assumeEmpty (EvNow now :: tr') x' ->
      match x' with
      | inr r' => updateTrace value l (pre ++ tr') r'
      | inl l1 => forall rest r', updateTrace value l1 rest r' ->
                                  updateTrace value l (pre ++ tr' ++ rest) r'
      end.
Proof.
  intros Hupd. revert pre.
  induction Hupd as [l tr r Hlast | l l1 tr1 tr r Hturn Hrest IH]; intros pre Heq.
  - destruct (turnTrace_replay _ _ _ _ _ Hlast Heq)
      as (l0 & assumeEmpty & now & pre1 & Hpre & Hk & Ht & Hto & Htrx & Hreplay).
    exists l0, assumeEmpty, now, pre1. repeat split; try assumption.
    intros tr' x' Hatt. apply Hreplay in Hatt. destruct x' as [l1 | r'].
    + intros rest r' Hrest. rewrite app_assoc.
      eapply update_retries; eassumption.
    + apply update_returns. exact Hatt.
  - pose proof (turnTrace_cell Hturn) as [Hk1 Ht1]. cbn in Hk1, Ht1.
    assert (Hlater : forall m, pre = tr1 ++ m ->
              tr = m ++ EvWriteTransaction timeout trx werr :: post ->
              exists (l0 : LeaderElectionCell) (assumeEmpty : bool) (now : Time)
                     (pre1 : log_t),
                pre = pre1 ++ [EvNow now] /\
                key l0 = key l /\ ttl l0 = ttl l /\
                timeout = callTimeout /\
                trx = {| keys := [NewKeySet (key l0)
                           {| Data := value;
                              TTL := Time_Unix (Time_Add now (ttl l0)) |} 0];
                         conditions :=
                           [if assumeEmpty then (key l0, NewConditionOldEmpty true)
                            else (key l0 ++ [keyTTL],
                                  NewConditionIfEqual (lastTTL l0))] |} /\
                forall tr' x',
                  attemptTrace l0 value assumeEmpty (EvNow now :: tr') x' ->
                  match x' with
                  | inr r' => updateTrace value l (pre ++ tr') r'
                  | inl l2 => forall rest r', updateTrace value l2 rest r' ->
                                updateTrace value l (pre ++ tr' ++ rest) r'
                  end).
    { intros m -> Hm.
      destruct (IH m Hm)
        as (l0 & assumeEmpty & now & pre1 & -> & Hk & Ht & Hto & Htrx & Hreplay).
      exists l0, assumeEmpty, now, (tr1 ++ pre1).
      split; [rewrite app_assoc; reflexivity |].
      split; [congruence |]. split; [congruence |].
      split; [assumption |]. split; [assumption |].
      intros tr' x' Hatt. specialize (Hreplay tr' x' Hatt).
      destruct x' as [l2 | r'].
      - intros rest r' Hrest'. rewrite <- app_assoc.
        eapply update_retries; [exact Hturn |]. apply Hreplay. exact Hrest'.
      - rewrite <- app_assoc. eapply update_retries; eassumption. }
    apply app_eq_app in Heq. destruct Heq as (m & [[Htr1 Hw] | [Hpre Htr]]).
    + destruct m as [| w m'].
      * cbn in Hw. apply (Hlater []); [| symmetry; exact Hw].
        rewrite Htr1. rewrite !app_nil_r. reflexivity.
      * cbn in Hw. inversion Hw; subst w post. clear Hw.
        destruct (turnTrace_replay _ _ _ _ _ Hturn Htr1)
          as (l0 & assumeEmpty & now & pre1 & Hpre & Hk & Ht & Hto & Htrx & Hreplay).
        exists l0, assumeEmpty, now, pre1. repeat split; try assumption.
        intros tr' x' Hatt. apply Hreplay in Hatt. destruct x' as [l2 | r'].
        -- intros rest r' Hrest'. rewrite app_assoc.
           eapply update_retries; eassumption.
        -- apply update_returns. exact Hatt.
    + apply (Hlater m); assumption.
Qed.

Lemma updateTrace_foreign (value : T) (l l' : LeaderElectionCell) (tr : log_t)
      (current : T) (delay : Duration) :
  updateTrace value l tr (l', (current, false, delay, None)) ->
  exists pre result rerr now,
    tr = pre ++ [EvReadKey callTimeout (key l) result rerr; EvNow now] /\
    Time_Unix now <= TTL result /\
    current = Data result /\
    lastTTL l' = TTL result /\ leading l' = false /\
    delay = (if Time_Sub (Unix (TTL result) 0) now <? minUpdateDelay
             then minUpdateDelay else Time_Sub (Unix (TTL result) 0) now).
Proof.
  intros Hupd. remember (l', (current, false, delay, None)) as r eqn:Hr.
  induction Hupd as [l tr r Hlast | l l1 tr1 tr r Hturn _ IH]; subst r.
  - inversion Hlast as [result e0 tr0 x Hnf Hatt
                       | result err now tr0 x Hnf Hexp Hatt
                       | result err now tr0 x Hnf Hexp l1 Hmine Hatt
                       | result err now Hnf Hexp l1 Hmine updateDelay]; subst.
    1-3: inversion Hatt.
    exists [], result, err, now. cbn. repeat split; auto.
  - destruct (IH eq_refl) as (pre & result & rerr & now & -> & Hrest).
    apply turnTrace_cell in Hturn. destruct Hturn as [Hk _]. rewrite Hk.
    exists (tr1 ++ pre), result, rerr, now.
    split; [rewrite app_assoc; reflexivity | exact Hrest].
Qed.

End Methods.

(** * The claims *)

Section Claims.

Context {T error : Type} `{Comparable T} `{ErrorKinds error}.

Local Abbreviation log_t := (list (entry T error)).

(** C3. Every claim or renew attempt, that is every call of
    [tryBecomeLeader], asks the clock once and then issues one write
    transaction, and returns whatever the agency answers to it: the
    transaction sets the record with the candidate value and the expiry
    (the Unix seconds of now plus the lease) at the key, under exactly one
    precondition, which is that the key was empty before when [assumeEmpty]
    holds and otherwise that the ttl field equals the cell's [lastTTL].
    These are all the runs of [tryBecomeLeader], and there is one for every
    clock reading and every answer. *)
Theorem tryBecomeLeader_transaction
        (l l' : LeaderElectionCell) (value : T) (assumeEmpty : bool)
        (log log' : log_t) (err : option error) :
  Run (tryBecomeLeader l value assumeEmpty) log log' (l', err) <->
  exists now,
    log' = log ++
      [EvNow now;
       EvWriteTransaction callTimeout
         {| keys := [NewKeySet (key l)
                       {| Data := value; TTL := Time_Unix (Time_Add now (ttl l)) |} 0];
            conditions :=
              [if assumeEmpty then (key l, NewConditionOldEmpty true)
               else (key l ++ [keyTTL], NewConditionIfEqual (lastTTL l))] |}
         err] /\
    l' = match err with
         | None => {| lastTTL := Time_Unix (Time_Add now (ttl l)); leading := true;
                      key := key l; ttl := ttl l |}
         | Some _ => l
         end.
Proof.
  unfold tryBecomeLeader. split.
  - intros Hrun.
    apply Run_bind_inv in Hrun. destruct Hrun as (log1 & now & Hnow & Hrun).
    apply Run_trigger_inv in Hnow. cbn in Hnow. subst log1.
    apply Run_bind_inv in Hrun. destruct Hrun as (log2 & werr & Hwrite & Hret).
    apply Run_trigger_inv in Hwrite. cbn in Hwrite. subst log2.
    exists now.
    destruct werr as [e |]; apply Run_Ret_inv in Hret; destruct Hret as [-> Heq];
      inversion Heq; subst; rewrite <- app_assoc;
      destruct assumeEmpty; split; reflexivity.
  - intros (now & -> & ->).
    run_answer now. run_answer err.
    destruct err as [e |]; destruct assumeEmpty; run_return.
Qed.

(** [Read] returns for every answer of the agency. *)
Lemma Read_run (l : LeaderElectionCell) (log : log_t)
      (result : leaderStruct T) (rerr : option error) :
  Run (Read l) log (log ++ [EvReadKey callTimeout (key l) result rerr])
      (l, match rerr with
          | Some e => (def, if IsKeyNotFound e then None else Some e)
          | None => (Data result, None)
          end).
Proof.
  unfold Read. eapply Run_bind; [apply (readCell_run l log result rerr) |].
  cbn. destruct rerr as [e |]; [destruct (IsKeyNotFound e) |]; apply Run_Ret.
Qed.

(** C8. [Read] asks the agency for the key once and returns for every
    answer.  When the agency says the key is not found, [Read] returns the
    zero value and no error; any other error of the read is returned as it
    is, with the zero value; a read without error returns the stored
    data. *)
Theorem Read_result
        (l l' : LeaderElectionCell) (log log' : log_t)
        (value : T) (err : option error) :
  Run (Read l) log log' (l', (value, err)) <->
  exists result rerr,
    log' = log ++ [EvReadKey callTimeout (key l) result rerr] /\
    l' = l /\
    match rerr with
    | Some e =>
        value = def /\ err = (if IsKeyNotFound e then None else Some e)
    | None => value = Data result /\ err = None
    end.
Proof.
  split.
  - unfold Read. intros Hrun.
    apply Run_bind_inv in Hrun.
    destruct Hrun as (log1 & [l0 [result rerr]] & Hread & Hret).
    apply readCell_inv in Hread. destruct Hread as [-> ->].
    exists result, rerr. cbn in Hret.
    destruct rerr as [e |]; [destruct (IsKeyNotFound e) |].
    all: apply Run_Ret_inv in Hret; destruct Hret as [-> Heq].
    all: inversion Heq; subst; repeat split; reflexivity.
  - intros (result & rerr & -> & -> & Hout).
    pose proof (Read_run l log result rerr) as Hrun.
    destruct rerr as [e |]; destruct Hout as [-> ->]; exact Hrun.
Qed.

(** C9. [Read] leaves the cell as it found it, whatever the agency
    answers: [lastTTL], [leading], [key] and [ttl] are unchanged. *)
Theorem Read_keeps_cell
        (l l' : LeaderElectionCell) (log log' : log_t)
        (out : T * option error) :
  Run (Read l) log log' (l', out) ->
  lastTTL l' = lastTTL l /\ leading l' = leading l /\
  key l' = key l /\ ttl l' = ttl l.
Proof.
  unfold Read. intros Hrun.
  apply Run_bind_inv in Hrun.
  destruct Hrun as (log1 & [l0 [result rerr]] & Hread & Hret).
  apply readCell_inv in Hread. destruct Hread as [-> ->].
  cbn in Hret.
  destruct rerr as [e |]; [destruct (IsKeyNotFound e) |].
  all: apply Run_Ret_inv in Hret; destruct Hret as [_ Heq].
  all: inversion Heq; subst; repeat split; reflexivity.
Qed.

Lemma Resign_inv (l l' : LeaderElectionCell) (log log' : log_t) (err : option error) :
  Run (Resign l) log log' (l', err) ->
  if leading l then
    exists werr,
      log' = log ++
        [EvWriteTransaction callTimeout
           {| keys := [NewKeyDelete (key l)];
              conditions := [(key l ++ [keyTTL], NewConditionIfEqual (lastTTL l))] |}
           werr] /\
      l' = set_leading l false /\
      err = match werr with
            | Some e => if IsPreconditionFailed e then None else Some e
            | None => None
            end
  else log' = log /\ l' = l /\ err = None.
Proof.
  unfold Resign. intros Hrun. destruct (leading l) eqn:Hleading; cbn in Hrun.
  - apply Run_bind_inv in Hrun. destruct Hrun as (log1 & werr & Hwrite & Hret).
    apply Run_trigger_inv in Hwrite. cbn in Hwrite. subst log1.
    exists werr.
    destruct werr as [e |]; [destruct (IsPreconditionFailed e) |].
    all: apply Run_Ret_inv in Hret; destruct Hret as [-> Heq].
    all: inversion Heq; subst; repeat split; reflexivity.
  - apply Run_Ret_inv in Hrun. destruct Hrun as [-> Heq].
    inversion Heq; subst. repeat split; reflexivity.
Qed.

Lemma Resign_run (l : LeaderElectionCell) (log : log_t) (werr : option error) :
  leading l = true ->
  Run (Resign l) log
      (log ++
        [EvWriteTransaction callTimeout
           {| keys := [NewKeyDelete (key l)];
              conditions := [(key l ++ [keyTTL], NewConditionIfEqual (lastTTL l))] |}
           werr])
      (set_leading l false,
       match werr with
       | Some e => if IsPreconditionFailed e then None else Some e
       | None => None
       end).
Proof.
  intros Hleading. unfold Resign. rewrite Hleading. cbn.
  run_answer werr.
  destruct werr as [e |]; [destruct (IsPreconditionFailed e) |]; apply Run_Ret.
Qed.

(** C7. [Resign] returns for every answer of the agency.  On a cell
    that does not believe it leads it writes nothing and returns no error.
    On a cell that believes it leads it issues one transaction, the delete
    of the key under the condition that the ttl field equals [lastTTL];
    the cell no longer believes it leads whatever the agency answers; a
    precondition failure of the delete is returned as no error and any
    other failure is returned as it is.  A second [Resign] right after the
    first returns too, writes nothing and returns no error. *)
Theorem Resign_result
        (l l' : LeaderElectionCell) (log log' : log_t) (err : option error) :
  (Run (Resign l) log log' (l', err) <->
   if leading l then
     exists werr,
       log' = log ++
         [EvWriteTransaction callTimeout
            {| keys := [NewKeyDelete (key l)];
               conditions := [(key l ++ [keyTTL], NewConditionIfEqual (lastTTL l))] |}
            werr] /\
       l' = set_leading l false /\
       err = match werr with
             | Some e => if IsPreconditionFailed e then None else Some e
             | None => None
             end
   else log' = log /\ l' = l /\ err = None) /\
  (Run (Resign l) log log' (l', err) ->
   forall l'' log'' err',
     Run (Resign l') log' log'' (l'', err') <->
     log'' = log' /\ l'' = l' /\ err' = None).
Proof.
  assert (Hidle : forall (l0 l1 : LeaderElectionCell) (log0 log1 : log_t) err1,
             leading l0 = false ->
             Run (Resign l0) log0 log1 (l1, err1) <->
             log1 = log0 /\ l1 = l0 /\ err1 = None).
  { intros l0 l1 log0 log1 err1 Hidle. split.
    - intros Hrun. apply Resign_inv in Hrun. rewrite Hidle in Hrun. exact Hrun.
    - intros (-> & -> & ->). unfold Resign. rewrite Hidle. apply Run_Ret. }
  split.
  - split.
    + apply Resign_inv.
    + destruct (leading l) eqn:Hleading.
      * intros (werr & -> & -> & ->). apply Resign_run. exact Hleading.
      * apply Hidle. exact Hleading.
  - intros Hrun l'' log'' err'. apply Hidle.
    apply Resign_inv in Hrun. destruct (leading l) eqn:Hleading.
    + destruct Hrun as (werr & _ & -> & _). reflexivity.
    + destruct Hrun as (_ & -> & _). exact Hleading.
Qed.

(** C10. Whenever [Update] returns an error, the value it returns is
    the zero value, it does not report leadership and the delay is 0. *)
Theorem Update_error_result
        (l l' : LeaderElectionCell) (value current : T) (log log' : log_t)
        (isLeader : bool) (delay : Duration) (e : error) :
  Run (Update l value) log log' (l', (current, isLeader, delay, Some e)) ->
  current = def /\ isLeader = false /\ delay = 0.
Proof.
  intros Hrun. apply Update_traces in Hrun. destruct Hrun as (tr & _ & Hupd).
  remember (l', (current, isLeader, delay, Some e)) as r eqn:Hr.
  induction Hupd as [l tr r Hlast | l l1 tr1 tr r Hturn _ IH]; [| exact (IH Hr)].
  subst r.
  inversion Hlast as [result e0 tr0 x Hnf Hatt
                     | result err now tr0 x Hnf Hexp Hatt
                     | result err now tr0 x Hnf Hexp l1 Hmine Hatt
                     | result err now Hnf Hexp l1 Hmine updateDelay]; subst.
  all: inversion Hatt; subst; repeat split; reflexivity.
Qed.

(** An error that [Update] returns is always the error of a write
    transaction, the last one it issued: the error of a read is never
    returned. *)
Lemma Update_error_is_write_error
      (l l' : LeaderElectionCell) (value current : T) (log tr : log_t)
      (isLeader : bool) (delay : Duration) (e : error) :
  Run (Update l value) log (log ++ tr) (l', (current, isLeader, delay, Some e)) ->
  exists pre timeout trx post,
    tr = pre ++ EvWriteTransaction timeout trx (Some e) :: post /\
    (post = [] \/ exists c, post = [EvCtxErr (Some c)]).
Proof.
  intros Hrun. apply Update_traces in Hrun. destruct Hrun as (tr' & Hlog & Hupd).
  apply app_inv_head in Hlog. subst tr'.
  remember (l', (current, isLeader, delay, Some e)) as r eqn:Hr.
  induction Hupd as [l tr r Hlast | l l1 tr1 tr r Hturn _ IH].
  - subst r.
    inversion Hlast as [result e0 tr0 x Hnf Hatt
                       | result err now tr0 x Hnf Hexp Hatt
                       | result err now tr0 x Hnf Hexp l1 Hmine Hatt
                       | result err now Hnf Hexp l1 Hmine updateDelay]; subst.
    all: inversion Hatt; subst.
    all: first
      [ eexists [_; _]; do 3 eexists; split; [reflexivity | eauto]
      | eexists [_; _; _]; do 3 eexists; split; [reflexivity | eauto] ].
  - destruct (IH Hr) as (pre & timeout & trx & post & -> & Hpost).
    exists (tr1 ++ pre), timeout, trx, post.
    split; [rewrite app_assoc; reflexivity | exact Hpost].
Qed.

(** [int64] on an integer that fits, and on one that is too large by
    less than [2 ^ 64]. *)
Lemma int64_fits (x : Z) : - 2 ^ 63 <= x < 2 ^ 63 -> int64 x = x.
Proof.
  intros Hrange. unfold int64. rewrite Z.mod_small; lia.
Qed.

Lemma int64_wraps (x : Z) : 2 ^ 63 <= x < 2 ^ 63 + 2 ^ 64 -> int64 x = x - 2 ^ 64.
Proof.
  intros Hrange. unfold int64.
  assert (Hmod : (x + 2 ^ 63) mod 2 ^ 64 = x + 2 ^ 63 - 2 ^ 64).
  { symmetry. apply Z.mod_unique with (q := 1); lia. }
  rewrite Hmod. lia.
Qed.

(** [Unix] on seconds that do not wrap, and on seconds that do. *)
Lemma Unix_exact (sec : Z) :
  - 2 ^ 63 <= sec < 2 ^ 63 - unixToInternal -> Unix sec 0 = sec * Second.
Proof.
  intros Hrange. unfold Unix. cbv zeta.
  change (0 / 1000000000) with 0. change (0 mod 1000000000) with 0.
  assert (Hc : unixToInternal = 62135596800) by reflexivity.
  replace (sec + 0) with sec by lia. rewrite (@int64_fits sec) by lia.
  rewrite (@int64_fits (sec + unixToInternal)) by lia. lia.
Qed.

Lemma Unix_wraps (sec : Z) :
  2 ^ 63 - unixToInternal <= sec < 2 ^ 63 -> Unix sec 0 = (sec - 2 ^ 64) * Second.
Proof.
  intros Hrange. unfold Unix. cbv zeta.
  change (0 / 1000000000) with 0. change (0 mod 1000000000) with 0.
  assert (Hc : unixToInternal = 62135596800) by reflexivity.
  replace (sec + 0) with sec by lia. rewrite (@int64_fits sec) by lia.
  rewrite (@int64_wraps (sec + unixToInternal)) by lia. lia.
Qed.

(** C5, as the code has it.  When [Update] returns without error and
    without leadership, it has just read the record and the clock, and the
    delay it returns is [time.Unix(expiry, 0).Sub(now)], raised to 500ms
    when it is less.  So the delay is never below 500ms, in particular
    never zero or negative, also when the expiry is not after the clock
    reading.  It is the time that remains until the expiry, raised to
    500ms, when the expiry is below [2 ^ 63 - unixToInternal] and that time
    fits a [Duration]; when that time does not fit, the delay is the
    longest [Duration]; and when the expiry is [2 ^ 63 - unixToInternal] or
    more, [time.Unix] wraps around and the delay is 500ms. *)
Theorem Update_backoff_floor
        (l l' : LeaderElectionCell) (value current : T) (log log' : log_t)
        (delay : Duration) :
  Run (Update l value) log log' (l', (current, false, delay, None)) ->
  exists pre result rerr now,
    log' = log ++ pre ++ [EvReadKey callTimeout (key l) result rerr; EvNow now] /\
    Time_Unix now <= TTL result /\
    current = Data result /\
    delay = Z.max (500 * Millisecond) (Time_Sub (Unix (TTL result) 0) now) /\
    500 * Millisecond <= delay /\
    0 < delay /\
    (- 2 ^ 63 <= TTL result < 2 ^ 63 - unixToInternal ->
     (TTL result * Second - now <= maxDuration ->
      delay = Z.max (500 * Millisecond) (TTL result * Second - now)) /\
     (maxDuration < TTL result * Second - now -> delay = maxDuration)) /\
    (2 ^ 63 - unixToInternal <= TTL result < 2 ^ 63 ->
     0 <= now ->
     delay = 500 * Millisecond).
Proof.
  intros Hrun. apply Update_traces in Hrun. destruct Hrun as (tr & -> & Hupd).
  apply updateTrace_foreign in Hupd.
  destruct Hupd as (pre & result & rerr & now & -> & Hexp & -> & _ & _ & Hdelay).
  exists pre, result, rerr, now.
  assert (Hmax : delay = Z.max (500 * Millisecond) (Time_Sub (Unix (TTL result) 0) now)).
  { rewrite Hdelay. unfold minUpdateDelay, Millisecond, Nanosecond.
    destruct (Time_Sub (Unix (TTL result) 0) now <? 1000000 * 1 * 500) eqn:Hlt.
    - apply Z.ltb_lt in Hlt. lia.
    - apply Z.ltb_ge in Hlt. lia. }
  assert (Hnow : now < (TTL result + 1) * 1000000000).
  { pose proof (Z.mul_succ_div_gt now 1000000000 eq_refl) as Hdiv.
    unfold Time_Unix, Second, Millisecond, Nanosecond in Hexp.
    change (1000 * (1000000 * 1)) with 1000000000 in Hexp. lia. }
  split; [reflexivity |]. split; [exact Hexp |]. split; [reflexivity |].
  split; [exact Hmax |].
  split; [rewrite Hmax; apply Z.le_max_l |].
  split; [rewrite Hmax; unfold Millisecond, Nanosecond; lia |].
  assert (Hc : unixToInternal = 62135596800) by reflexivity.
  split.
  - intros Hrange. rewrite Hmax. rewrite (@Unix_exact (TTL result)) by exact Hrange.
    unfold Time_Sub, Second, Millisecond, Nanosecond, minDuration, maxDuration in *.
    destruct (TTL result * (1000 * (1000000 * 1)) - now <? - 2 ^ 63) eqn:Hlo.
    { apply Z.ltb_lt in Hlo. lia. }
    destruct (2 ^ 63 - 1 <? TTL result * (1000 * (1000000 * 1)) - now) eqn:Hhi.
    + apply Z.ltb_lt in Hhi. split; intros Hdiff; lia.
    + apply Z.ltb_ge in Hhi. split; intros Hdiff; [reflexivity | lia].
  - intros Hrange Hclock. rewrite Hmax.
    rewrite (@Unix_wraps (TTL result)) by exact Hrange.
    unfold Time_Sub, Second, Millisecond, Nanosecond, minDuration, maxDuration in *.
    destruct ((TTL result - 2 ^ 64) * (1000 * (1000000 * 1)) - now <? - 2 ^ 63) eqn:Hlo.
    + lia.
    + apply Z.ltb_ge in Hlo. lia.
Qed.

(** [Update] writes through [tryBecomeLeader] only: every write
    transaction in a run of [Update] is such a claim, dated by the clock
    reading just before it; it is conditioned on the key being empty when
    the read of that turn said the key was not found, and otherwise on the
    ttl field being the expiry just read, which is the cell's [lastTTL]
    by then. *)
Lemma Update_writes_are_claims
      (l l' : LeaderElectionCell) (value : T) (log tr pre post : log_t)
      (res : UpdateResult T error) (timeout : Duration) (trx : Transaction T)
      (werr : option error) :
  Run (Update l value) log (log ++ tr) (l', res) ->
  tr = pre ++ EvWriteTransaction timeout trx werr :: post ->
  exists pre0 result rerr now,
    (if notFound rerr
     then pre = pre0 ++ [EvReadKey callTimeout (key l) result rerr; EvNow now]
     else exists now0,
         pre = pre0 ++
               [EvReadKey callTimeout (key l) result rerr; EvNow now0; EvNow now]) /\
    timeout = callTimeout /\
    trx = {| keys := [NewKeySet (key l)
                        {| Data := value; TTL := Time_Unix (Time_Add now (ttl l)) |} 0];
             conditions :=
               [if notFound rerr then (key l, NewConditionOldEmpty true)
                else (key l ++ [keyTTL], NewConditionIfEqual (TTL result))] |}.
Proof.
  intros Hrun Heq. apply Update_traces in Hrun.
  destruct Hrun as (tr' & Hlog & Hupd).
  apply app_inv_head in Hlog. subst tr'.
  destruct (updateTrace_write _ _ _ _ _ Hupd Heq)
    as (pre0 & result & rerr & now & Hpre & Hto & Htrx & _).
  exists pre0, result, rerr, now. repeat split; assumption.
Qed.

(** C4. Wherever [Update] issues a write transaction, the run in which
    the agency lets that write succeed exists and ends with the write: the
    cell then holds the expiry that was written as [lastTTL] and believes it
    leads, and [Update] returns the candidate value, leadership, half the
    lease as the delay (Go's integer division) and no error. *)
Theorem Update_claim_succeeds
        (l : LeaderElectionCell) (value : T) (log pre post : log_t)
        (r : LeaderElectionCell * UpdateResult T error)
        (timeout : Duration) (trx : Transaction T) (werr : option error) :
  Run (Update l value) log
      (log ++ pre ++ EvWriteTransaction timeout trx werr :: post) r ->
  exists pre0 now,
    pre = pre0 ++ [EvNow now] /\
    keys trx = [NewKeySet (key l)
                  {| Data := value; TTL := Time_Unix (Time_Add now (ttl l)) |} 0] /\
    Run (Update l value) log
        (log ++ pre ++ [EvWriteTransaction timeout trx None])
        ({| lastTTL := Time_Unix (Time_Add now (ttl l)); leading := true;
            key := key l; ttl := ttl l |},
         (value, true, Z.quot (ttl l) 2, None)) /\
    forall post' r',
      Run (Update l value) log
          (log ++ pre ++ EvWriteTransaction timeout trx None :: post') r' ->
      post' = [] /\
      r' = ({| lastTTL := Time_Unix (Time_Add now (ttl l)); leading := true;
               key := key l; ttl := ttl l |},
            (value, true, Z.quot (ttl l) 2, None)).
Proof.
  intros Hrun. apply Update_traces in Hrun.
  destruct Hrun as (tr & Hlog & Hupd). apply app_inv_head in Hlog. subst tr.
  destruct (updateTrace_replay _ _ _ _ _ Hupd eq_refl)
    as (l0 & assumeEmpty & now & pre1 & -> & Hk & Ht & -> & -> & Hreplay).
  exists pre1, now. split; [reflexivity |].
  split; [cbn; rewrite Hk, Ht; reflexivity |].
  split.
  - apply Update_traces. eexists. split; [reflexivity |].
    pose proof (Hreplay _ _ (attempt_won l0 value assumeEmpty now)) as Hwon.
    cbn in Hwon. unfold set_leading, set_lastTTL in Hwon. cbn in Hwon.
    rewrite Hk, Ht in Hwon. rewrite Hk, Ht. exact Hwon.
  - intros post' r' Hrun'. apply Update_traces in Hrun'.
    destruct Hrun' as (tr & Hlog & Hupd'). apply app_inv_head in Hlog. subst tr.
    destruct (updateTrace_write _ _ _ _ _ Hupd' eq_refl)
      as (pre0 & result & rerr & now' & Hpre & _ & _ & -> & ->).
    assert (Hnow : now' = now).
    { destruct (notFound rerr).
      - replace (pre0 ++ [EvReadKey callTimeout (key l) result rerr; EvNow now'])
          with ((pre0 ++ [EvReadKey callTimeout (key l) result rerr]) ++ [EvNow now'])
          in Hpre by (rewrite <- app_assoc; reflexivity).
        apply app_inj_tail in Hpre. destruct Hpre as [_ Heq]. congruence.
      - destruct Hpre as (now0 & Hpre).
        replace (pre0 ++ [EvReadKey callTimeout (key l) result rerr;
                          EvNow now0; EvNow now'])
          with ((pre0 ++ [EvReadKey callTimeout (key l) result rerr; EvNow now0])
                ++ [EvNow now'])
          in Hpre by (rewrite <- app_assoc; reflexivity).
        apply app_inj_tail in Hpre. destruct Hpre as [_ Heq]. congruence. }
    subst now'. split; reflexivity.
Qed.

(** C6. Wherever [Update] issues a write transaction, consider the
    agency failing it with [e].  When [e] is not a precondition failure,
    [Update] returns there and then, with [e].  When [e] is a precondition
    failure, [Update] asks the caller's context: if the context is done, it
    returns there, with [e]; if not, it sleeps 500ms and the rest of the
    call is a call of [Update] from the start, beginning with a new read of
    the key.  Each of these runs exists, and there are no others. *)
Theorem Update_claim_fails
        (l : LeaderElectionCell) (value : T) (log pre post : log_t)
        (r : LeaderElectionCell * UpdateResult T error)
        (timeout : Duration) (trx : Transaction T) (werr : option error)
        (e : error) :
  Run (Update l value) log
      (log ++ pre ++ EvWriteTransaction timeout trx werr :: post) r ->
  if IsPreconditionFailed e then
    (forall c, exists l',
        Run (Update l value) log
            (log ++ pre ++ [EvWriteTransaction timeout trx (Some e); EvCtxErr (Some c)])
            (l', (def, false, 0, Some e))) /\
    (exists l1, forall log' r',
        Run (Update l1 value)
            (log ++ pre ++ [EvWriteTransaction timeout trx (Some e);
                            EvCtxErr None; EvSleep (500 * Millisecond)])
            log' r' ->
        Run (Update l value) log log' r') /\
    (forall post' l' res,
        Run (Update l value) log
            (log ++ pre ++ EvWriteTransaction timeout trx (Some e) :: post') (l', res) ->
        (exists c, post' = [EvCtxErr (Some c)] /\ res = (def, false, 0, Some e)) \/
        (exists l1 result rerr rest,
            post' = EvCtxErr None :: EvSleep (500 * Millisecond) ::
                    EvReadKey callTimeout (key l) result rerr :: rest /\
            Run (Update l1 value)
                (log ++ pre ++ [EvWriteTransaction timeout trx (Some e);
                                EvCtxErr None; EvSleep (500 * Millisecond)])
                (log ++ pre ++ EvWriteTransaction timeout trx (Some e) :: post')
                (l', res)))
  else
    (exists l',
        Run (Update l value) log
            (log ++ pre ++ [EvWriteTransaction timeout trx (Some e)])
            (l', (def, false, 0, Some e))) /\
    (forall post' l' res,
        Run (Update l value) log
            (log ++ pre ++ EvWriteTransaction timeout trx (Some e) :: post') (l', res) ->
        post' = [] /\ res = (def, false, 0, Some e)).
Proof.
  intros Hrun. apply Update_traces in Hrun.
  destruct Hrun as (tr & Hlog & Hupd). apply app_inv_head in Hlog. subst tr.
  destruct (updateTrace_replay _ _ _ _ _ Hupd eq_refl)
    as (l0 & assumeEmpty & now & pre1 & -> & Hk & Ht & -> & -> & Hreplay).
  assert (Hothers : forall post' l' res,
    Run (Update l value) log
        (log ++ (pre1 ++ [EvNow now]) ++
         EvWriteTransaction callTimeout
           {| keys := [NewKeySet (key l0)
                         {| Data := value;
                            TTL := Time_Unix (Time_Add now (ttl l0)) |} 0];
              conditions :=
                [if assumeEmpty then (key l0, NewConditionOldEmpty true)
                 else (key l0 ++ [keyTTL], NewConditionIfEqual (lastTTL l0))] |}
           (Some e) :: post') (l', res) ->
    if IsPreconditionFailed e then
      (exists c, post' = [EvCtxErr (Some c)] /\ res = (def, false, 0, Some e)) \/
      (exists l1 result rerr rest,
          post' = EvCtxErr None :: EvSleep (500 * Millisecond) ::
                  EvReadKey callTimeout (key l) result rerr :: rest /\
          Run (Update l1 value)
              (log ++ (pre1 ++ [EvNow now]) ++
               [EvWriteTransaction callTimeout
                  {| keys := [NewKeySet (key l0)
                                {| Data := value;
                                   TTL := Time_Unix (Time_Add now (ttl l0)) |} 0];
                     conditions :=
                       [if assumeEmpty then (key l0, NewConditionOldEmpty true)
                        else (key l0 ++ [keyTTL],
                              NewConditionIfEqual (lastTTL l0))] |}
                  (Some e);
                EvCtxErr None; EvSleep (500 * Millisecond)])
              (log ++ (pre1 ++ [EvNow now]) ++
               EvWriteTransaction callTimeout
                 {| keys := [NewKeySet (key l0)
                               {| Data := value;
                                  TTL := Time_Unix (Time_Add now (ttl l0)) |} 0];
                    conditions :=
                      [if assumeEmpty then (key l0, NewConditionOldEmpty true)
                       else (key l0 ++ [keyTTL],
                             NewConditionIfEqual (lastTTL l0))] |}
                 (Some e) :: post')
              (l', res))
    else post' = [] /\ res = (def, false, 0, Some e)).
  { intros post' l' res Hrun'. apply Update_traces in Hrun'.
    destruct Hrun' as (tr & Hlog & Hupd'). apply app_inv_head in Hlog. subst tr.
    destruct (updateTrace_write _ _ _ _ _ Hupd' eq_refl)
      as (pre0 & result & rerr & now' & _ & _ & _ & Hend).
    destruct (IsPreconditionFailed e).
    - destruct Hend as [(c & l2 & -> & Hr) | (l1 & rest & -> & Hk1 & _ & Hrest)].
      + left. exists c. inversion Hr. split; reflexivity.
      + right.
        destruct (updateTrace_starts Hrest) as (result1 & rerr1 & rest1 & ->).
        rewrite Hk1 in Hrest |- *.
        exists l1, result1, rerr1, rest1. split; [reflexivity |].
        apply Update_traces.
        exists (EvReadKey callTimeout (key l) result1 rerr1 :: rest1).
        split; [| exact Hrest].
        repeat rewrite <- app_assoc. reflexivity.
    - destruct Hend as (-> & l2 & Hr). inversion Hr. split; reflexivity. }
  destruct (IsPreconditionFailed e) eqn:Hpf.
  - split; [| split].
    + intros c. exists l0.
      apply Update_traces. eexists. split; [reflexivity |].
      exact (Hreplay _ _ (attempt_cancelled l0 value assumeEmpty now e c Hpf)).
    + exists l0. intros log' r' Hrest. apply Update_traces in Hrest.
      destruct Hrest as (rest & -> & Hrest).
      apply Update_traces. eexists.
      split; [| exact (Hreplay _ _ (attempt_lost l0 value assumeEmpty now e Hpf)
                         rest r' Hrest)].
      repeat rewrite <- app_assoc. reflexivity.
    + exact Hothers.
  - split.
    + exists l0.
      apply Update_traces. eexists. split; [reflexivity |].
      exact (Hreplay _ _ (attempt_failed l0 value assumeEmpty now e Hpf)).
    + exact Hothers.
Qed.

(** C1, as the code has it.  A new cell whose first [Update] reads a
    record that is present, expires strictly after the clock reading and
    holds a value [DeepEqual] to the candidate adopts that record
    ([lastTTL] its expiry, [leading] true) and then renews it: the next
    thing it does is a write transaction of the candidate value with a new
    expiry, under the condition that the ttl field equals the expiry read.
    When that write succeeds [Update] returns leadership; when it fails
    with an error that is not a precondition failure [Update] returns the
    error and the cell keeps what it adopted.  Both runs exist, for every
    clock reading. *)
Theorem Update_bootstrap_renews
        (key0 : list string) (ttl0 : Duration) (value : T) (log : log_t)
        (result : leaderStruct T) (now : Time) :
  Time_Unix now < TTL result ->
  DeepEqual (Data result) value = true ->
  (forall now1,
      Run (Update (NewLeaderElectionCell key0 ttl0) value) log
          (log ++
           [EvReadKey callTimeout key0 result None;
            EvNow now;
            EvNow now1;
            EvWriteTransaction callTimeout
              {| keys := [NewKeySet key0
                            {| Data := value;
                               TTL := Time_Unix (Time_Add now1 ttl0) |} 0];
                 conditions :=
                   [(key0 ++ [keyTTL], NewConditionIfEqual (TTL result))] |}
              None])
          ({| lastTTL := Time_Unix (Time_Add now1 ttl0); leading := true;
              key := key0; ttl := ttl0 |},
           (value, true, Z.quot ttl0 2, None))) /\
  (forall now1 e,
      IsPreconditionFailed e = false ->
      Run (Update (NewLeaderElectionCell key0 ttl0) value) log
          (log ++
           [EvReadKey callTimeout key0 result None;
            EvNow now;
            EvNow now1;
            EvWriteTransaction callTimeout
              {| keys := [NewKeySet key0
                            {| Data := value;
                               TTL := Time_Unix (Time_Add now1 ttl0) |} 0];
                 conditions :=
                   [(key0 ++ [keyTTL], NewConditionIfEqual (TTL result))] |}
              (Some e)])
          ({| lastTTL := TTL result; leading := true; key := key0; ttl := ttl0 |},
           (def, false, 0, Some e))) /\
  (forall rest l' res,
      Run (Update (NewLeaderElectionCell key0 ttl0) value) log
          (log ++ EvReadKey callTimeout key0 result None :: EvNow now :: rest)
          (l', res) ->
      exists now1 werr rest',
        rest = EvNow now1 ::
               EvWriteTransaction callTimeout
                 {| keys := [NewKeySet key0
                               {| Data := value;
                                  TTL := Time_Unix (Time_Add now1 ttl0) |} 0];
                    conditions :=
                      [(key0 ++ [keyTTL], NewConditionIfEqual (TTL result))] |}
                 werr :: rest' /\
        match werr with
        | None =>
            rest' = [] /\
            l' = {| lastTTL := Time_Unix (Time_Add now1 ttl0); leading := true;
                    key := key0; ttl := ttl0 |} /\
            res = (value, true, Z.quot ttl0 2, None)
        | Some e =>
            IsPreconditionFailed e = false ->
            rest' = [] /\
            l' = {| lastTTL := TTL result; leading := true; key := key0; ttl := ttl0 |} /\
            res = (def, false, 0, Some e)
        end).
Proof.
  intros Hfuture Hequal.
  assert (Hadopt :
    (if (TTL result >? Time_Unix now)
        && negb (leading (NewLeaderElectionCell key0 ttl0))
        && (lastTTL (NewLeaderElectionCell key0 ttl0) =? 0)
     then set_leading (set_lastTTL (NewLeaderElectionCell key0 ttl0) (TTL result))
                      (DeepEqual (Data result) value)
     else NewLeaderElectionCell key0 ttl0)
    = {| lastTTL := TTL result; leading := true; key := key0; ttl := ttl0 |}).
  { cbn. replace (TTL result >? Time_Unix now) with true
      by (symmetry; apply Z.gtb_lt; exact Hfuture).
    cbn. rewrite Hequal. reflexivity. }
  assert (Hrenew : forall tr0 x,
    attemptTrace {| lastTTL := TTL result; leading := true; key := key0; ttl := ttl0 |}
                 value false tr0 x ->
    turnTrace (NewLeaderElectionCell key0 ttl0) value
              (EvReadKey callTimeout key0 result None :: EvNow now :: tr0) x).
  { intros tr0 x Hatt.
    refine (turn_renew (NewLeaderElectionCell key0 ttl0) result None now
              eq_refl _ _ _).
    - lia.
    - rewrite Hadopt. cbn. rewrite Z.eqb_refl. reflexivity.
    - rewrite Hadopt. exact Hatt. }
  split; [| split].
  - intros now1. apply Update_traces. eexists. split; [reflexivity |].
    apply update_returns. apply Hrenew.
    exact (attempt_won {| lastTTL := TTL result; leading := true;
                          key := key0; ttl := ttl0 |} value false now1).
  - intros now1 e Hpf. apply Update_traces. eexists. split; [reflexivity |].
    apply update_returns. apply Hrenew.
    exact (attempt_failed {| lastTTL := TTL result; leading := true;
                             key := key0; ttl := ttl0 |} value false now1 e Hpf).
  - intros rest l' res Hrun. apply Update_traces in Hrun.
    destruct Hrun as (tr & Hlog & Hupd). apply app_inv_head in Hlog. subst tr.
    assert (Hturn : forall tr1 x more,
      turnTrace (NewLeaderElectionCell key0 ttl0) value tr1 x ->
      tr1 ++ more = EvReadKey callTimeout key0 result None :: EvNow now :: rest ->
      exists tr0,
        rest = tr0 ++ more /\
        attemptTrace {| lastTTL := TTL result; leading := true; key := key0; ttl := ttl0 |}
                     value false tr0 x).
    { intros tr1 x more Hturn Htr1.
      inversion Hturn as [result1 e1 tr0 x1 Hnf Hatt
                         | result1 err1 now0 tr0 x1 Hnf Hexp Hatt
                         | result1 err1 now0 tr0 x1 Hnf Hexp l1 Hmine Hatt
                         | result1 err1 now0 Hnf Hexp l1 Hmine updateDelay];
        subst; cbn in Htr1; inversion Htr1; subst.
      - lia.
      - exists tr0. split; [reflexivity |].
        subst l1. rewrite Hadopt in Hatt. exact Hatt.
      - subst l1. rewrite Hadopt in Hmine. cbn in Hmine.
        rewrite Z.eqb_refl in Hmine. discriminate Hmine. }
    assert (Hshape : forall tr0 x,
      attemptTrace {| lastTTL := TTL result; leading := true; key := key0; ttl := ttl0 |}
                   value false tr0 x ->
      exists now1 werr tail,
        tr0 = EvNow now1 ::
              EvWriteTransaction callTimeout
                {| keys := [NewKeySet key0
                              {| Data := value;
                                 TTL := Time_Unix (Time_Add now1 ttl0) |} 0];
                   conditions :=
                     [(key0 ++ [keyTTL], NewConditionIfEqual (TTL result))] |}
                werr :: tail /\
        match werr with
        | None =>
            tail = [] /\
            x = inr ({| lastTTL := Time_Unix (Time_Add now1 ttl0); leading := true;
                        key := key0; ttl := ttl0 |},
                     (value, true, Z.quot ttl0 2, None))
        | Some e =>
            IsPreconditionFailed e = false ->
            tail = [] /\
            x = inr ({| lastTTL := TTL result; leading := true;
                        key := key0; ttl := ttl0 |},
                     (def, false, 0, Some e))
        end).
    { intros tr0 x Hatt.
      destruct Hatt as [now1 | now1 e Hpf | now1 e c Hpf | now1 e Hpf].
      - exists now1, None, []. repeat split.
      - exists now1, (Some e), []. repeat split.
      - exists now1, (Some e), [EvCtxErr (Some c)]. split; [reflexivity |].
        intros Hno. congruence.
      - exists now1, (Some e), [EvCtxErr None; EvSleep minUpdateDelay].
        split; [reflexivity |]. intros Hno. congruence. }
    remember (EvReadKey callTimeout key0 result None :: EvNow now :: rest) as tr eqn:Htr.
    remember (NewLeaderElectionCell key0 ttl0) as l0 eqn:Hl0.
    remember (l', res) as r eqn:Hr.
    destruct Hupd as [l0 tr r Hlast | l0 l1 tr1 tr2 r Hfirst Hrest]; subst l0 r.
    + destruct (Hturn tr (inr (l', res)) [] Hlast) as (tr1 & -> & Hatt).
      { rewrite app_nil_r. reflexivity. }
      destruct (Hshape _ _ Hatt) as (now1 & werr & tail & -> & Hend).
      exists now1, werr, tail. rewrite app_nil_r. split; [reflexivity |].
      destruct werr as [e |].
      * intros Hno. destruct (Hend Hno) as (-> & Hx). inversion Hx. repeat split.
      * destruct Hend as (-> & Hx). inversion Hx. repeat split.
    + destruct (Hturn tr1 (inl l1) tr2 Hfirst) as (tr0 & -> & Hatt).
      { reflexivity. }
      destruct (Hshape _ _ Hatt) as (now1 & werr & tail & -> & Hend).
      exists now1, werr, (tail ++ tr2). split; [reflexivity |].
      destruct werr as [e |].
      * intros Hno. destruct (Hend Hno) as (_ & Hx). discriminate Hx.
      * destruct Hend as (_ & Hx). discriminate Hx.
Qed.

End Claims.

(** * Further properties of the election

    What the code of [tryBecomeLeader], [Update] and [Resign] shows beyond
    the claims above: what a call leaves in the cell, which of its four
    paths a turn of [Update] takes, and what the log of a call can hold. *)

Section Further.

Context {T error : Type} `{Comparable T} `{ErrorKinds error}.

Local Abbreviation log_t := (list (entry T error)).

(** The throttle of [Update] is a maximum. *)
Lemma throttle_max (d : Duration) :
  (if d <? minUpdateDelay then minUpdateDelay else d) = Z.max minUpdateDelay d.
Proof.
  destruct (d <? minUpdateDelay) eqn:Hlt.
  - apply Z.ltb_lt in Hlt. lia.
  - apply Z.ltb_ge in Hlt. lia.
Qed.

(** Every attempt begins with the clock and its write. *)
Lemma attemptTrace_shape (l0 : LeaderElectionCell) (value : T) (assumeEmpty : bool)
      (tr : log_t) (x : outcome T error) :
  attemptTrace l0 value assumeEmpty tr x ->
  exists now werr tail,
    tr = EvNow now ::
         EvWriteTransaction callTimeout
           {| keys := [NewKeySet (key l0)
                         {| Data := value; TTL := Time_Unix (Time_Add now (ttl l0)) |} 0];
              conditions :=
                [if assumeEmpty then (key l0, NewConditionOldEmpty true)
                 else (key l0 ++ [keyTTL], NewConditionIfEqual (lastTTL l0))] |}
           werr :: tail.
Proof.
  intros Hatt. destruct Hatt; do 3 eexists; reflexivity.
Qed.

(** When the turns of [l] that begin with [head] are exactly the attempts
    of [l0], the call is at that attempt once [head] is in the log. *)
Lemma attemptsAs_intro (l l0 : LeaderElectionCell) (value : T) (assumeEmpty : bool)
      (log head : log_t) :
  (forall tr0 x, attemptTrace l0 value assumeEmpty tr0 x ->
                 turnTrace l value (head ++ tr0) x) ->
  (forall tr1 x more rest,
      turnTrace l value tr1 x -> tr1 ++ more = head ++ rest ->
      exists tr0, rest = tr0 ++ more /\ attemptTrace l0 value assumeEmpty tr0 x) ->
  attemptsAs l value log head l0 assumeEmpty.
Proof.
  intros Hcan Hmust. unfold attemptsAs. cbv beta zeta.
  split; [| split; [| split; [| split]]].
  - intros rest r Hrun. apply Update_traces in Hrun.
    destruct Hrun as (tr & Hlog & Hupd). apply app_inv_head in Hlog. subst tr.
    inversion Hupd as [l1 tr r1 Hlast Hl Htr Hr | l1 l2 tr1 tr2 r1 Hfirst Hrest Hl Htr Hr];
      subst l1 r1.
    + destruct (Hmust _ _ [] rest Hlast) as (tr0 & -> & Hatt).
      { apply app_nil_r. }
      destruct (attemptTrace_shape Hatt) as (now & werr & tail & ->).
      exists now, werr, (tail ++ []). reflexivity.
    + destruct (Hmust _ _ tr2 rest Hfirst Htr) as (tr0 & -> & Hatt).
      destruct (attemptTrace_shape Hatt) as (now & werr & tail & ->).
      exists now, werr, (tail ++ tr2). reflexivity.
  - intros now. apply Update_traces. eexists. split; [reflexivity |].
    apply update_returns. apply Hcan.
    exact (attempt_won l0 value assumeEmpty now).
  - intros now e Hpf. apply Update_traces. eexists. split; [reflexivity |].
    apply update_returns. apply Hcan.
    exact (attempt_failed l0 value assumeEmpty now e Hpf).
  - intros now e c Hpf. apply Update_traces. eexists. split; [reflexivity |].
    apply update_returns. apply Hcan.
    exact (attempt_cancelled l0 value assumeEmpty now e c Hpf).
  - intros now e log' r Hpf Hrun. apply Update_traces in Hrun.
    destruct Hrun as (rest & -> & Hrest).
    apply Update_traces. eexists.
    split; [| eapply update_retries;
              [apply Hcan; exact (attempt_lost l0 value assumeEmpty now e Hpf)
              | exact Hrest]].
    repeat rewrite <- app_assoc. reflexivity.
Qed.

(** The cell after the adoption step of [Update], when the cell believes
    it leads: nothing is adopted. *)
Lemma adopt_leading (l : LeaderElectionCell) (value : T)
      (result : leaderStruct T) (now : Time) :
  leading l = true ->
  (if (TTL result >? Time_Unix now) && negb (leading l) && (lastTTL l =? 0)
   then set_leading (set_lastTTL l (TTL result)) (DeepEqual (Data result) value)
   else l) = l.
Proof.
  intros Hlead. rewrite Hlead. cbn. rewrite andb_false_r. reflexivity.
Qed.

(** When the record read is not the cell's own, the adoption step leaves
    a cell that does not renew. *)
Lemma adopt_foreign (l : LeaderElectionCell) (value : T)
      (result : leaderStruct T) (now : Time) :
  (if leading l then lastTTL l <> TTL result
   else ~ (Time_Unix now < TTL result /\ lastTTL l = 0 /\
           DeepEqual (Data result) value = true)) ->
  forall l1,
    l1 = (if (TTL result >? Time_Unix now) && negb (leading l) && (lastTTL l =? 0)
          then set_leading (set_lastTTL l (TTL result)) (DeepEqual (Data result) value)
          else l) ->
    (TTL result =? lastTTL l1) && leading l1 = false /\
    set_leading (set_lastTTL l1 (TTL result)) false
    = {| lastTTL := TTL result; leading := false; key := key l; ttl := ttl l |}.
Proof.
  intros Hcase l1 ->.
  destruct (leading l) eqn:Hlead.
  - cbn. rewrite andb_false_r. cbn. rewrite Hlead. split; [| reflexivity].
    rewrite andb_true_r. apply Z.eqb_neq. congruence.
  - cbn. rewrite andb_true_r.
    destruct (TTL result >? Time_Unix now) eqn:Hgt;
      destruct (lastTTL l =? 0) eqn:Hzero; cbn.
    2-4: rewrite Hlead; rewrite andb_false_r; split; reflexivity.
    rewrite Z.eqb_refl. cbn.
    destruct (DeepEqual (Data result) value) eqn:Heq; [| split; reflexivity].
    exfalso. apply Hcase. apply Z.gtb_lt in Hgt. apply Z.eqb_eq in Hzero.
    repeat split; assumption.
Qed.

(** How a call that returns leadership ended. *)
Lemma turnTrace_elected (l l' : LeaderElectionCell) (value current : T) (tr : log_t)
      (delay : Duration) (err : option error) :
  turnTrace l value tr (inr (l', (current, true, delay, err))) ->
  exists pre now trx,
    tr = pre ++ [EvNow now; EvWriteTransaction callTimeout trx None] /\
    keys trx = [NewKeySet (key l)
                  {| Data := value; TTL := Time_Unix (Time_Add now (ttl l)) |} 0] /\
    l' = {| lastTTL := Time_Unix (Time_Add now (ttl l)); leading := true;
            key := key l; ttl := ttl l |} /\
    current = value /\ delay = Z.quot (ttl l) 2 /\ err = None.
Proof.
  intros Hturn.
  assert (Hends : exists pre now trx,
             tr = pre ++ [EvNow now; EvWriteTransaction callTimeout trx None]).
  { inversion Hturn as [result e0 tr0 x Hnf Hatt
                       | result rerr now0 tr0 x Hnf Hexp Hatt
                       | result rerr now0 tr0 x Hnf Hexp l1 Hmine Hatt
                       | result rerr now0 Hnf Hexp l1 Hmine updateDelay]; subst.
    1-3: inversion Hatt; subst.
    - eexists [_]. do 2 eexists. reflexivity.
    - eexists [_; _]. do 2 eexists. reflexivity.
    - eexists [_; _]. do 2 eexists. reflexivity. }
  destruct Hends as (pre & now & trx & ->).
  assert (Heq : pre ++ [EvNow now; EvWriteTransaction callTimeout trx None]
                = (pre ++ [EvNow now]) ++ EvWriteTransaction callTimeout trx None :: []).
  { rewrite <- app_assoc. reflexivity. }
  rewrite Heq in Hturn.
  destruct (turnTrace_write _ _ _ _ _ Hturn eq_refl)
    as (result & rerr & now' & Hpre & _ & Htrx & _ & Hx).
  assert (Hnow : now' = now).
  { destruct (notFound rerr).
    - change [EvReadKey callTimeout (key l) result rerr; EvNow now']
        with ([EvReadKey callTimeout (key l) result rerr] ++ [EvNow now']) in Hpre.
      apply app_inj_tail in Hpre. destruct Hpre as [_ Hn]. congruence.
    - destruct Hpre as (now0 & Hpre).
      change [EvReadKey callTimeout (key l) result rerr; EvNow now0; EvNow now']
        with ([EvReadKey callTimeout (key l) result rerr; EvNow now0] ++ [EvNow now'])
        in Hpre.
      apply app_inj_tail in Hpre. destruct Hpre as [_ Hn]. congruence. }
  subst now'. inversion Hx; subst.
  exists pre, now. eexists. split; [reflexivity |]. repeat split.
Qed.

Lemma updateTrace_elected (value current : T) (l l' : LeaderElectionCell) (tr : log_t)
      (delay : Duration) (err : option error) :
  updateTrace value l tr (l', (current, true, delay, err)) ->
  exists pre now trx,
    tr = pre ++ [EvNow now; EvWriteTransaction callTimeout trx None] /\
    keys trx = [NewKeySet (key l)
                  {| Data := value; TTL := Time_Unix (Time_Add now (ttl l)) |} 0] /\
    l' = {| lastTTL := Time_Unix (Time_Add now (ttl l)); leading := true;
            key := key l; ttl := ttl l |} /\
    current = value /\ delay = Z.quot (ttl l) 2 /\ err = None.
Proof.
  intros Hupd. remember (l', (current, true, delay, err)) as r eqn:Hr.
  induction Hupd as [l tr r Hlast | l l1 tr1 tr r Hturn _ IH]; subst r.
  - apply turnTrace_elected. exact Hlast.
  - destruct (IH eq_refl) as (pre & now & trx & -> & Hrest).
    apply turnTrace_cell in Hturn. destruct Hturn as [Hk Ht]. rewrite Hk, Ht in Hrest.
    exists (tr1 ++ pre), now, trx.
    split; [rewrite app_assoc; reflexivity | exact Hrest].
Qed.

(** A call that returns an error returns nothing else. *)
Lemma updateTrace_error (value current : T) (l l' : LeaderElectionCell) (tr : log_t)
      (isLeader : bool) (delay : Duration) (e : error) :
  updateTrace value l tr (l', (current, isLeader, delay, Some e)) ->
  current = def /\ isLeader = false /\ delay = 0.
Proof.
  intros Hupd. remember (l', (current, isLeader, delay, Some e)) as r eqn:Hr.
  induction Hupd as [l tr r Hlast | l l1 tr1 tr r Hturn _ IH]; [| exact (IH Hr)].
  subst r.
  inversion Hlast as [result e0 tr0 x Hnf Hatt
                     | result err now tr0 x Hnf Hexp Hatt
                     | result err now tr0 x Hnf Hexp l1 Hmine Hatt
                     | result err now Hnf Hexp l1 Hmine updateDelay]; subst.
  all: inversion Hatt; subst; repeat split; reflexivity.
Qed.

(** The entries of one turn, and of a call. *)
Lemma attemptTrace_entries (l : LeaderElectionCell) (value : T) (assumeEmpty : bool)
      (tr : log_t) (x : outcome T error) :
  attemptTrace l value assumeEmpty tr x -> Forall (updateEntry (key l) value) tr.
Proof.
  intros Hatt.
  assert (Hwrite : forall (now : Time) (werr : option error),
             updateEntry (key l) value
               (EvWriteTransaction callTimeout
                  {| keys := [NewKeySet (key l)
                                {| Data := value;
                                   TTL := Time_Unix (Time_Add now (ttl l)) |} 0];
                     conditions :=
                       [if assumeEmpty then (key l, NewConditionOldEmpty true)
                        else (key l ++ [keyTTL], NewConditionIfEqual (lastTTL l))] |}
                  werr)).
  { intros now werr. cbn. split; [reflexivity |].
    do 2 eexists. split; [reflexivity |].
    destruct assumeEmpty; [left; reflexivity | right; eexists; reflexivity]. }
  destruct Hatt; repeat first [apply Forall_nil | apply Forall_cons].
  all: first [apply Hwrite | exact I | reflexivity].
Qed.

Lemma turnTrace_entries (l : LeaderElectionCell) (value : T)
      (tr : log_t) (x : outcome T error) :
  turnTrace l value tr x -> Forall (updateEntry (key l) value) tr.
Proof.
  intros Hturn.
  destruct Hturn as [result e tr x Hnf Hatt
                    | result err now tr x Hnf Hexp Hatt
                    | result err now tr x Hnf Hexp l1 Hmine Hatt
                    | result err now Hnf Hexp l1 Hmine updateDelay].
  - constructor; [split; reflexivity |].
    exact (attemptTrace_entries Hatt).
  - constructor; [split; reflexivity |]. constructor; [exact I |].
    exact (attemptTrace_entries Hatt).
  - constructor; [split; reflexivity |]. constructor; [exact I |].
    assert (Hk : key l1 = key l).
    { subst l1.
      destruct ((TTL result >? Time_Unix now) && negb (leading l) && (lastTTL l =? 0));
        reflexivity. }
    rewrite <- Hk. exact (attemptTrace_entries Hatt).
  - constructor; [split; reflexivity |]. constructor; [exact I | constructor].
Qed.

Lemma updateTrace_entries (value : T) (l : LeaderElectionCell) (tr : log_t)
      (r : LeaderElectionCell * UpdateResult T error) :
  updateTrace value l tr r -> Forall (updateEntry (key l) value) tr.
Proof.
  intros Hupd.
  induction Hupd as [l tr r Hlast | l l1 tr1 tr r Hturn _ IH].
  - exact (turnTrace_entries Hlast).
  - apply Forall_app. split; [exact (turnTrace_entries Hturn) |].
    apply turnTrace_cell in Hturn. destruct Hturn as [Hk _].
    rewrite <- Hk. exact IH.
Qed.

(** One turn reads once; it writes and sleeps once when the loop goes
    round again, and does not sleep when it returns. *)
Lemma turnTrace_counts (l : LeaderElectionCell) (value : T)
      (tr : log_t) (x : outcome T error) :
  turnTrace l value tr x ->
  (List.length (filter isRead tr) = 1)%nat /\
  match x with
  | inl _ => (List.length (filter isSleep tr) = 1 /\ List.length (filter isWrite tr) = 1)%nat
  | inr _ => (List.length (filter isSleep tr) = 0 /\ List.length (filter isWrite tr) <= 1)%nat
  end.
Proof.
  intros Hturn.
  destruct Hturn as [result e tr x Hnf Hatt
                    | result err now tr x Hnf Hexp Hatt
                    | result err now tr x Hnf Hexp l1 Hmine Hatt
                    | result err now Hnf Hexp l1 Hmine updateDelay].
  1-3: destruct Hatt; cbn; repeat split; lia.
  cbn. repeat split; lia.
Qed.

(** A turn that goes round again has lost a race; a turn that returns
    after more than four entries has lost one too. *)
Lemma turnTrace_lost (l : LeaderElectionCell) (value : T)
      (tr : log_t) (x : outcome T error) :
  turnTrace l value tr x ->
  (exists r, x = inr r /\ (List.length tr <= 4)%nat) \/
  (exists timeout trx e,
      In (EvWriteTransaction timeout trx (Some e)) tr /\ IsPreconditionFailed e = true).
Proof.
  intros Hturn.
  destruct Hturn as [result e tr x Hnf Hatt
                    | result err now tr x Hnf Hexp Hatt
                    | result err now tr x Hnf Hexp l1 Hmine Hatt
                    | result err now Hnf Hexp l1 Hmine updateDelay].
  1-3: destruct Hatt as [now1 | now1 e1 Hpf | now1 e1 c Hpf | now1 e1 Hpf].
  all: try (left; eexists; split; [reflexivity | cbn; lia]).
  all: right; do 3 eexists; split; [| exact Hpf]; cbn; tauto.
Qed.

(** Where an entry of a trace made of two parts sits. *)
Lemma app_entry_cases {A : Type} (tr1 tr pre post : list A) (w : A) :
  tr1 ++ tr = pre ++ w :: post ->
  (exists m, tr1 = pre ++ w :: m /\ post = m ++ tr) \/
  (exists m, pre = tr1 ++ m /\ tr = m ++ w :: post).
Proof.
  intros Heq. apply app_eq_app in Heq.
  destruct Heq as (m & [[Htr1 Hw] | [Hpre Htr]]).
  - destruct m as [| w' m'].
    + right. exists []. rewrite app_nil_r in Htr1. cbn in Hw. subst tr1 tr.
      rewrite app_nil_r. split; reflexivity.
    + inversion Hw; subst. left. exists m'. split; reflexivity.
  - right. exists m. split; assumption.
Qed.

(** What holds of the entries before an entry [w] in every turn holds of
    the entries before [w] in a call, when it still holds with more entries
    in front. *)
Lemma updateTrace_before (value : T) (w : entry T error) (P : log_t -> Prop) :
  (forall p q, P q -> P (p ++ q)) ->
  (forall l tr x pre post,
      turnTrace l value tr x -> tr = pre ++ w :: post -> P pre) ->
  forall l tr r, updateTrace value l tr r ->
  forall pre post, tr = pre ++ w :: post -> P pre.
Proof.
  intros Hfront Hturns l tr r Hupd.
  induction Hupd as [l tr r Hlast | l l1 tr1 tr r Hturn _ IH]; intros pre post Heq.
  - exact (Hturns _ _ _ _ _ Hlast Heq).
  - destruct (app_entry_cases _ _ _ _ _ Heq) as [(m & Htr1 & _) | (m & -> & Htr)].
    + exact (Hturns _ _ _ _ _ Hturn Htr1).
    + apply Hfront. exact (IH _ _ Htr).
Qed.

(** In a turn the context is asked right after a write that failed with a
    precondition failure, and a sleep comes right after the context said
    it is not done. *)
Lemma turnTrace_context (l : LeaderElectionCell) (value : T)
      (tr pre post : log_t) (x : outcome T error) (c : option error) :
  turnTrace l value tr x ->
  tr = pre ++ EvCtxErr c :: post ->
  exists pre' timeout trx e,
    pre = pre' ++ [EvWriteTransaction timeout trx (Some e)] /\
    IsPreconditionFailed e = true.
Proof.
  intros Hturn Heq.
  destruct Hturn as [result e tr x Hnf Hatt
                    | result err now tr x Hnf Hexp Hatt
                    | result err now tr x Hnf Hexp l1 Hmine Hatt
                    | result err now Hnf Hexp l1 Hmine updateDelay].
  1-3: destruct Hatt as [now1 | now1 e1 Hpf | now1 e1 c1 Hpf | now1 e1 Hpf].
  all: find_entry Heq.
  all: first
    [ eexists [_; _]; do 3 eexists; split; [reflexivity | exact Hpf]
    | eexists [_; _; _]; do 3 eexists; split; [reflexivity | exact Hpf] ].
Qed.

Lemma turnTrace_sleep (l : LeaderElectionCell) (value : T)
      (tr pre post : log_t) (x : outcome T error) (d : Duration) :
  turnTrace l value tr x ->
  tr = pre ++ EvSleep d :: post ->
  exists pre', pre = pre' ++ [EvCtxErr None].
Proof.
  intros Hturn Heq.
  destruct Hturn as [result e tr x Hnf Hatt
                    | result err now tr x Hnf Hexp Hatt
                    | result err now tr x Hnf Hexp l1 Hmine Hatt
                    | result err now Hnf Hexp l1 Hmine updateDelay].
  1-3: destruct Hatt as [now1 | now1 e1 Hpf | now1 e1 c1 Hpf | now1 e1 Hpf].
  all: find_entry Heq.
  all: first
    [ eexists [_; _; _]; reflexivity
    | eexists [_; _; _; _]; reflexivity ].
Qed.

(** How a call that returns an error ended. *)
Lemma updateTrace_error_end (value current : T) (l l' : LeaderElectionCell) (tr : log_t)
      (isLeader : bool) (delay : Duration) (e : error) :
  updateTrace value l tr (l', (current, isLeader, delay, Some e)) ->
  exists pre timeout trx,
    if IsPreconditionFailed e
    then exists c, tr = pre ++ [EvWriteTransaction timeout trx (Some e); EvCtxErr (Some c)]
    else tr = pre ++ [EvWriteTransaction timeout trx (Some e)].
Proof.
  intros Hupd. remember (l', (current, isLeader, delay, Some e)) as r eqn:Hr.
  induction Hupd as [l tr r Hlast | l l1 tr1 tr r Hturn _ IH].
  - subst r.
    inversion Hlast as [result e0 tr0 x Hnf Hatt
                       | result err now tr0 x Hnf Hexp Hatt
                       | result err now tr0 x Hnf Hexp l1 Hmine Hatt
                       | result err now Hnf Hexp l1 Hmine updateDelay]; subst.
    all: inversion Hatt as [now1 | now1 e1 Hpf | now1 e1 c1 Hpf | now1 e1 Hpf]; subst.
    all: first
      [ eexists [_; _]; do 2 eexists; rewrite Hpf;
        first [reflexivity | eexists; reflexivity]
      | eexists [_; _; _]; do 2 eexists; rewrite Hpf;
        first [reflexivity | eexists; reflexivity] ].
  - destruct (IH Hr) as (pre & timeout & trx & Hend).
    exists (tr1 ++ pre), timeout, trx.
    destruct (IsPreconditionFailed e).
    + destruct Hend as (c & ->). exists c. rewrite app_assoc. reflexivity.
    + rewrite Hend. rewrite app_assoc. reflexivity.
Qed.

(** X1. [Update] never changes the key or the lease of the cell,
    however many times it goes round its loop and however it returns. *)
Theorem Update_keeps_key_and_lease
        (l l' : LeaderElectionCell) (value : T) (log log' : log_t)
        (res : UpdateResult T error) :
  Run (Update l value) log log' (l', res) ->
  key l' = key l /\ ttl l' = ttl l.
Proof.
  intros Hrun. apply Update_traces in Hrun. destruct Hrun as (tr & _ & Hupd).
  exact (updateTrace_cell Hupd).
Qed.

(** X2. [Update] reports leadership only straight after a write
    transaction of its own that succeeded: the log then ends with a clock
    reading and that write, which set the candidate value with the expiry
    computed from that reading; the cell holds that expiry and believes it
    leads, and the value returned is the candidate, the delay half the
    lease and the error nil. *)
Theorem Update_leader_result
        (l l' : LeaderElectionCell) (value current : T) (log log' : log_t)
        (delay : Duration) (err : option error) :
  Run (Update l value) log log' (l', (current, true, delay, err)) ->
  exists pre now trx,
    log' = log ++ pre ++ [EvNow now; EvWriteTransaction callTimeout trx None] /\
    keys trx = [NewKeySet (key l)
                  {| Data := value; TTL := Time_Unix (Time_Add now (ttl l)) |} 0] /\
    l' = {| lastTTL := Time_Unix (Time_Add now (ttl l)); leading := true;
            key := key l; ttl := ttl l |} /\
    current = value /\ delay = Z.quot (ttl l) 2 /\ err = None.
Proof.
  intros Hrun. apply Update_traces in Hrun. destruct Hrun as (tr & -> & Hupd).
  destruct (updateTrace_elected Hupd) as (pre & now & trx & -> & Hrest).
  exists pre, now, trx. split; [reflexivity | exact Hrest].
Qed.

(** X3. Whenever [Update] returns without error, what the cell believes
    is what [Update] reports: [leading] is the returned [isLeader]. *)
Theorem Update_belief_matches_result
        (l l' : LeaderElectionCell) (value current : T) (log log' : log_t)
        (isLeader : bool) (delay : Duration) :
  Run (Update l value) log log' (l', (current, isLeader, delay, None)) ->
  leading l' = isLeader.
Proof.
  intros Hrun. apply Update_traces in Hrun. destruct Hrun as (tr & _ & Hupd).
  destruct isLeader.
  - destruct (updateTrace_elected Hupd) as (pre & now & trx & _ & _ & -> & _).
    reflexivity.
  - destruct (updateTrace_foreign Hupd)
      as (pre & result & rerr & now & _ & _ & _ & _ & Hlead & _).
    exact Hlead.
Qed.

(** X4. When the read says the key is not found, [Update] goes straight
    to an attempt on the cell as it is, under the condition that the key is
    empty: the clock is not asked about the record, and a failed attempt
    returns the cell unchanged. *)
Theorem Update_absent_claims
        (l : LeaderElectionCell) (value : T) (log : log_t)
        (result : leaderStruct T) (e : error) :
  IsKeyNotFound e = true ->
  attemptsAs l value log [EvReadKey callTimeout (key l) result (Some e)] l true.
Proof.
  intros Hnf. apply attemptsAs_intro.
  - intros tr0 x Hatt. exact (turn_absent result e Hnf Hatt).
  - intros tr1 x more rest Hturn Heq.
    inversion Hturn as [result1 e1 tr0 x1 Hnf1 Hatt
                       | result1 err1 now0 tr0 x1 Hnf1 Hexp Hatt
                       | result1 err1 now0 tr0 x1 Hnf1 Hexp l1 Hmine Hatt
                       | result1 err1 now0 Hnf1 Hexp l1 Hmine updateDelay];
      subst; cbn in Heq; inversion Heq; subst.
    + exists tr0. split; [reflexivity | exact Hatt].
    + cbn in Hnf1. congruence.
    + cbn in Hnf1. congruence.
    + cbn in Hnf1. congruence.
Qed.

(** X5. When the record read has expired (its expiry is before the
    second of the clock reading), [Update] first sets the cell to the
    expiry read and to not leading, whatever it believed, and then attempts
    a claim under the condition that the ttl field is the expiry read: a
    leader whose lease ran out steps down before it claims again, and stays
    so when the claim fails. *)
Theorem Update_expired_claims
        (l : LeaderElectionCell) (value : T) (log : log_t)
        (result : leaderStruct T) (rerr : option error) (now : Time) :
  notFound rerr = false ->
  TTL result < Time_Unix now ->
  attemptsAs l value log
    [EvReadKey callTimeout (key l) result rerr; EvNow now]
    {| lastTTL := TTL result; leading := false; key := key l; ttl := ttl l |}
    false.
Proof.
  intros Hnf Hexpired. apply attemptsAs_intro.
  - intros tr0 x Hatt. exact (@turn_expired _ _ _ _ l value result rerr now tr0 x Hnf Hexpired Hatt).
  - intros tr1 x more rest Hturn Heq.
    inversion Hturn as [result1 e1 tr0 x1 Hnf1 Hatt
                       | result1 err1 now0 tr0 x1 Hnf1 Hexp Hatt
                       | result1 err1 now0 tr0 x1 Hnf1 Hexp l1 Hmine Hatt
                       | result1 err1 now0 Hnf1 Hexp l1 Hmine updateDelay];
      subst; cbn in Heq; inversion Heq; subst.
    + cbn in Hnf. congruence.
    + exists tr0. split; [reflexivity | exact Hatt].
    + lia.
    + lia.
Qed.

(** X6. A cell that believes it leads and reads back the expiry it
    holds, not yet expired, renews: it attempts a write under the condition
    that the ttl field is still that expiry.  When the renewal fails the
    cell is returned as it was, so it still believes it leads although
    [Update] returns an error and no leadership. *)
Theorem Update_renews_own_lease
        (l : LeaderElectionCell) (value : T) (log : log_t)
        (result : leaderStruct T) (rerr : option error) (now : Time) :
  notFound rerr = false ->
  leading l = true ->
  lastTTL l = TTL result ->
  Time_Unix now <= TTL result ->
  attemptsAs l value log
    [EvReadKey callTimeout (key l) result rerr; EvNow now] l false.
Proof.
  intros Hnf Hlead Hsame Hvalid.
  pose proof (adopt_leading l value result now Hlead) as Hadopt.
  apply attemptsAs_intro.
  - intros tr0 x Hatt.
    refine (turn_renew l result rerr now Hnf Hvalid _ _).
    + rewrite Hadopt, Hlead, Hsame, Z.eqb_refl. reflexivity.
    + rewrite Hadopt. exact Hatt.
  - intros tr1 x more rest Hturn Heq.
    inversion Hturn as [result1 e1 tr0 x1 Hnf1 Hatt
                       | result1 err1 now0 tr0 x1 Hnf1 Hexp Hatt
                       | result1 err1 now0 tr0 x1 Hnf1 Hexp l1 Hmine Hatt
                       | result1 err1 now0 Hnf1 Hexp l1 Hmine updateDelay];
      subst; cbn in Heq; inversion Heq; subst.
    + cbn in Hnf. congruence.
    + lia.
    + exists tr0. split; [reflexivity |].
      subst l1. rewrite Hadopt in Hatt. exact Hatt.
    + subst l1. rewrite Hadopt, Hlead, Hsame, Z.eqb_refl in Hmine.
      discriminate Hmine.
Qed.

(** X7. When the record read has not expired and is not the cell's own
    (a cell that believes it leads holds another expiry; a cell that does
    not is either not new, or the value stored is not its candidate, or the
    expiry is the very second of the clock reading), [Update] writes
    nothing and returns at once: no leadership, the value stored, the cell
    set to the expiry read and to not leading, and as the delay
    [time.Unix(expiry, 0).Sub(now)] raised to 500ms, with [Sub] saturating
    and [time.Unix] wrapping around as in Go.  Nothing else can follow that
    read. *)
Theorem Update_defers_to_leader
        (l : LeaderElectionCell) (value : T) (log : log_t)
        (result : leaderStruct T) (rerr : option error) (now : Time) :
  notFound rerr = false ->
  Time_Unix now <= TTL result ->
  (if leading l then lastTTL l <> TTL result
   else ~ (Time_Unix now < TTL result /\ lastTTL l = 0 /\
           DeepEqual (Data result) value = true)) ->
  Run (Update l value) log
      (log ++ [EvReadKey callTimeout (key l) result rerr; EvNow now])
      ({| lastTTL := TTL result; leading := false; key := key l; ttl := ttl l |},
       (Data result, false,
        Z.max minUpdateDelay (Time_Sub (Unix (TTL result) 0) now), None)) /\
  forall rest r,
    Run (Update l value) log
        (log ++ EvReadKey callTimeout (key l) result rerr :: EvNow now :: rest) r ->
    rest = [] /\
    r = ({| lastTTL := TTL result; leading := false; key := key l; ttl := ttl l |},
         (Data result, false,
          Z.max minUpdateDelay (Time_Sub (Unix (TTL result) 0) now), None)).
Proof.
  intros Hnf Hvalid Hcase.
  destruct (adopt_foreign l value result now Hcase eq_refl) as [Hmine Hcell].
  assert (Hturn : forall tr1 x,
    turnTrace l value tr1 x ->
    forall more rest,
    tr1 ++ more = EvReadKey callTimeout (key l) result rerr :: EvNow now :: rest ->
    rest = more /\
    x = inr ({| lastTTL := TTL result; leading := false; key := key l; ttl := ttl l |},
             (Data result, false,
              Z.max minUpdateDelay (Time_Sub (Unix (TTL result) 0) now), None))).
  { intros tr1 x Hturn more rest Heq.
    inversion Hturn as [result1 e1 tr0 x1 Hnf1 Hatt
                       | result1 err1 now0 tr0 x1 Hnf1 Hexp Hatt
                       | result1 err1 now0 tr0 x1 Hnf1 Hexp l1 Hmine1 Hatt
                       | result1 err1 now0 Hnf1 Hexp l1 Hmine1 updateDelay];
      subst; cbn in Heq; inversion Heq; subst.
    - cbn in Hnf. congruence.
    - lia.
    - subst l1. rewrite Hmine in Hmine1. discriminate Hmine1.
    - split; [reflexivity |]. subst l1 updateDelay.
      rewrite Hcell, throttle_max. reflexivity. }
  split.
  - apply Update_traces. eexists. split; [reflexivity |].
    apply update_returns.
    pose proof (turn_foreign l value result rerr now Hnf Hvalid Hmine) as Hforeign.
    cbv zeta in Hforeign. rewrite Hcell, throttle_max in Hforeign. exact Hforeign.
  - intros rest r Hrun. apply Update_traces in Hrun.
    destruct Hrun as (tr & Hlog & Hupd). apply app_inv_head in Hlog. subst tr.
    inversion Hupd as [l1 tr r1 Hlast Hl Htr Hr | l1 l2 tr1 tr2 r1 Hfirst Hrest Hl Htr Hr];
      subst l1 r1.
    + destruct (Hturn _ _ Hlast [] rest) as [-> Hx].
      { apply app_nil_r. }
      inversion Hx. split; reflexivity.
    + destruct (Hturn _ _ Hfirst tr2 rest Htr) as [_ Hx]. discriminate Hx.
Qed.

(** X8. [Resign] after an [Update] that returned leadership: the delete
    it issues is guarded by the very expiry that the last write of that
    [Update] stored, so it can only remove the record this cell wrote; the
    cell keeps that expiry and no longer believes it leads. *)
Theorem Update_then_Resign
        (l l1 : LeaderElectionCell) (value current : T) (log log1 : log_t)
        (delay : Duration) (uerr : option error) :
  Run (Update l value) log log1 (l1, (current, true, delay, uerr)) ->
  exists pre now trx,
    log1 = log ++ pre ++ [EvNow now; EvWriteTransaction callTimeout trx None] /\
    keys trx = [NewKeySet (key l)
                  {| Data := value; TTL := Time_Unix (Time_Add now (ttl l)) |} 0] /\
    forall l2 log2 rerr,
      Run (Resign l1) log1 log2 (l2, rerr) <->
      exists werr,
        log2 = log1 ++
          [EvWriteTransaction callTimeout
             {| keys := [NewKeyDelete (key l)];
                conditions :=
                  [(key l ++ [keyTTL],
                    NewConditionIfEqual (Time_Unix (Time_Add now (ttl l))))] |}
             werr] /\
        l2 = {| lastTTL := Time_Unix (Time_Add now (ttl l)); leading := false;
                key := key l; ttl := ttl l |} /\
        rerr = match werr with
               | Some e => if IsPreconditionFailed e then None else Some e
               | None => None
               end.
Proof.
  intros Hrun. apply Update_traces in Hrun. destruct Hrun as (tr & -> & Hupd).
  destruct (updateTrace_elected Hupd) as (pre & now & trx & -> & Hkeys & -> & _).
  exists pre, now, trx. split; [reflexivity |]. split; [exact Hkeys |].
  intros l2 log2 rerr. split.
  - intros Hresign. apply Resign_inv in Hresign. cbn in Hresign. exact Hresign.
  - intros (werr & -> & -> & ->).
    exact (Resign_run
             {| lastTTL := Time_Unix (Time_Add now (ttl l)); leading := true;
                key := key l; ttl := ttl l |} _ werr eq_refl).
Qed.

(** X9. Everything [Update] shows to the agency is about its own key and
    candidate: every read is a read of the cell's key and every write sets
    the candidate value at that key under exactly one condition, both with
    the 10s timeout; it never deletes and never writes another key or
    value; and every sleep is of 500ms. *)
Theorem Update_log_entries
        (l : LeaderElectionCell) (value : T) (log tr : log_t)
        (r : LeaderElectionCell * UpdateResult T error) :
  Run (Update l value) log (log ++ tr) r ->
  Forall (updateEntry (key l) value) tr.
Proof.
  intros Hrun. apply Update_traces in Hrun.
  destruct Hrun as (tr' & Hlog & Hupd). apply app_inv_head in Hlog. subst tr'.
  exact (updateTrace_entries Hupd).
Qed.

(** X10. [Update] sleeps exactly once between two reads of the key, and
    writes at most once per read: in the log of a call the reads are one
    more than the sleeps, and the writes are at least the sleeps and at
    most the reads. *)
Theorem Update_sleeps_between_reads
        (l : LeaderElectionCell) (value : T) (log tr : log_t)
        (r : LeaderElectionCell * UpdateResult T error) :
  Run (Update l value) log (log ++ tr) r ->
  (List.length (filter isRead tr) = S (List.length (filter isSleep tr)) /\
   List.length (filter isSleep tr) <= List.length (filter isWrite tr) /\
   List.length (filter isWrite tr) <= List.length (filter isRead tr))%nat.
Proof.
  intros Hrun. apply Update_traces in Hrun.
  destruct Hrun as (tr' & Hlog & Hupd). apply app_inv_head in Hlog. subst tr'.
  induction Hupd as [l tr r Hlast | l l1 tr1 tr r Hturn _ IH].
  - apply turnTrace_counts in Hlast. cbn in Hlast. lia.
  - apply turnTrace_counts in Hturn. cbn in Hturn.
    rewrite !filter_app, !length_app. lia.
Qed.

(** X11. With a lease that is not negative, the delay [Update] returns
    is never negative. *)
Theorem Update_delay_nonneg
        (l l' : LeaderElectionCell) (value current : T) (log log' : log_t)
        (isLeader : bool) (delay : Duration) (err : option error) :
  0 <= ttl l ->
  Run (Update l value) log log' (l', (current, isLeader, delay, err)) ->
  0 <= delay.
Proof.
  intros Hlease Hrun. apply Update_traces in Hrun. destruct Hrun as (tr & _ & Hupd).
  destruct isLeader; [| destruct err as [e |]].
  - destruct (updateTrace_elected Hupd) as (pre & now & trx & _ & _ & _ & _ & -> & _).
    apply Z.quot_pos; lia.
  - destruct (updateTrace_error Hupd) as (_ & _ & ->). lia.
  - destruct (updateTrace_foreign Hupd)
      as (pre & result & rerr & now & _ & _ & _ & _ & _ & ->).
    rewrite throttle_max. unfold minUpdateDelay, Millisecond, Nanosecond. lia.
Qed.

(** X12. [Update] goes round its loop again only after a write failed
    with a precondition failure: in a call where no write fails so, the key
    is read once and the log has at most four entries. *)
Theorem Update_single_turn
        (l : LeaderElectionCell) (value : T) (log tr : log_t)
        (r : LeaderElectionCell * UpdateResult T error) :
  Run (Update l value) log (log ++ tr) r ->
  (forall timeout trx e,
      In (EvWriteTransaction timeout trx (Some e)) tr ->
      IsPreconditionFailed e = false) ->
  (List.length (filter isRead tr) = 1 /\ List.length tr <= 4)%nat.
Proof.
  intros Hrun Hnone. apply Update_traces in Hrun.
  destruct Hrun as (tr' & Hlog & Hupd). apply app_inv_head in Hlog. subst tr'.
  destruct Hupd as [l tr r Hlast | l l1 tr1 tr r Hturn Hrest].
  - pose proof (turnTrace_counts Hlast) as [Hreads _].
    destruct (turnTrace_lost Hlast)
      as [(r0 & _ & Hlen) | (timeout & trx & e & Hin & Hpf)].
    + split; assumption.
    + rewrite (Hnone _ _ _ Hin) in Hpf. discriminate Hpf.
  - exfalso.
    destruct (turnTrace_lost Hturn)
      as [(r0 & Hx & _) | (timeout & trx & e & Hin & Hpf)].
    + discriminate Hx.
    + assert (Hin' : In (EvWriteTransaction timeout trx (Some e)) (tr1 ++ tr)).
      { apply in_or_app. left. exact Hin. }
      rewrite (Hnone _ _ _ Hin') in Hpf. discriminate Hpf.
Qed.

(** X13. The expiry [tryBecomeLeader] stores is in whole seconds: when
    the write succeeds, the cell's [lastTTL] is the second of the clock
    reading plus the whole seconds of the lease (rounded down), or one
    second more.  So with a lease of at least one second the expiry is
    strictly after the second in which it was written. *)
Theorem tryBecomeLeader_expiry_bounds
        (l l' : LeaderElectionCell) (value : T) (assumeEmpty : bool)
        (log log' : log_t) :
  Run (tryBecomeLeader l value assumeEmpty) log log' (l', None) ->
  exists now trx,
    log' = log ++ [EvNow now; EvWriteTransaction callTimeout trx None] /\
    Time_Unix now + ttl l / Second <= lastTTL l' <= Time_Unix now + ttl l / Second + 1 /\
    (Second <= ttl l -> Time_Unix now < lastTTL l').
Proof.
  intros Hrun. unfold tryBecomeLeader in Hrun.
  apply Run_bind_inv in Hrun. destruct Hrun as (log1 & now & Hnow & Hrun).
  apply Run_trigger_inv in Hnow. cbn in Hnow. subst log1.
  apply Run_bind_inv in Hrun. destruct Hrun as (log2 & werr & Hwrite & Hret).
  apply Run_trigger_inv in Hwrite. cbn in Hwrite. subst log2.
  destruct werr as [e |]; apply Run_Ret_inv in Hret; destruct Hret as [-> Heq];
    inversion Heq; subst.
  exists now. eexists. split; [rewrite <- app_assoc; reflexivity |].
  cbn. unfold Time_Unix, Time_Add, Second, Millisecond, Nanosecond in *.
  change (1000 * (1000000 * 1)) with 1000000000.
  pose proof (Z.div_mod now 1000000000 ltac:(lia)) as Hn.
  pose proof (Z.mod_pos_bound now 1000000000 ltac:(lia)) as Hnr.
  pose proof (Z.div_mod (ttl l) 1000000000 ltac:(lia)) as Hd.
  pose proof (Z.mod_pos_bound (ttl l) 1000000000 ltac:(lia)) as Hdr.
  pose proof (Z.div_mod (now + ttl l) 1000000000 ltac:(lia)) as Hs.
  pose proof (Z.mod_pos_bound (now + ttl l) 1000000000 ltac:(lia)) as Hsr.
  assert (Hlow : now / 1000000000 + ttl l / 1000000000 <= (now + ttl l) / 1000000000).
  { apply Z.div_le_lower_bound; lia. }
  assert (Hhigh : (now + ttl l) / 1000000000 < now / 1000000000 + ttl l / 1000000000 + 2).
  { apply Z.div_lt_upper_bound; lia. }
  repeat split; lia.
Qed.

(** X14. A precondition failure is returned by [Update] only when the
    caller's context is done: when [Update] returns an error that is a
    precondition failure, the log ends with the write that failed with it
    and the context saying it is done; when it returns any other error, the
    log ends with the write that failed with it. *)
Theorem Update_error_ends_the_log
        (l l' : LeaderElectionCell) (value current : T) (log tr : log_t)
        (isLeader : bool) (delay : Duration) (e : error) :
  Run (Update l value) log (log ++ tr) (l', (current, isLeader, delay, Some e)) ->
  exists pre timeout trx,
    if IsPreconditionFailed e
    then exists c, tr = pre ++ [EvWriteTransaction timeout trx (Some e); EvCtxErr (Some c)]
    else tr = pre ++ [EvWriteTransaction timeout trx (Some e)].
Proof.
  intros Hrun. apply Update_traces in Hrun.
  destruct Hrun as (tr' & Hlog & Hupd). apply app_inv_head in Hlog. subst tr'.
  exact (updateTrace_error_end Hupd).
Qed.

(** X15. [Update] asks the caller's context only right after a write
    that failed with a precondition failure, and sleeps only right after
    the context said it is not done: a call made with a context that is
    already done still reads the key and may write, and no sleep is taken
    without the context having been asked. *)
Theorem Update_asks_context_after_lost_race
        (l : LeaderElectionCell) (value : T) (log tr : log_t)
        (r : LeaderElectionCell * UpdateResult T error) :
  Run (Update l value) log (log ++ tr) r ->
  (forall pre c post,
      tr = pre ++ EvCtxErr c :: post ->
      exists pre' timeout trx e,
        pre = pre' ++ [EvWriteTransaction timeout trx (Some e)] /\
        IsPreconditionFailed e = true) /\
  (forall pre d post,
      tr = pre ++ EvSleep d :: post ->
      exists pre', pre = pre' ++ [EvCtxErr None]).
Proof.
  intros Hrun. apply Update_traces in Hrun.
  destruct Hrun as (tr' & Hlog & Hupd). apply app_inv_head in Hlog. subst tr'.
  split.
  - intros pre c post.
    refine (@updateTrace_before value (EvCtxErr c)
              (fun pre => exists pre' timeout trx e,
                   pre = pre' ++ [EvWriteTransaction timeout trx (Some e)] /\
                   IsPreconditionFailed e = true)
              _ _ _ _ _ Hupd pre post).
    + intros p q (pre' & timeout & trx & e & -> & Hpf).
      exists (p ++ pre'), timeout, trx, e.
      split; [rewrite app_assoc; reflexivity | exact Hpf].
    + intros l0 tr0 x pre0 post0 Hturn Heq.
      eapply turnTrace_context; eassumption.
  - intros pre d post.
    refine (@updateTrace_before value (EvSleep d)
              (fun pre => exists pre', pre = pre' ++ [EvCtxErr None])
              _ _ _ _ _ Hupd pre post).
    + intros p q (pre' & ->). exists (p ++ pre'). rewrite app_assoc. reflexivity.
    + intros l0 tr0 x pre0 post0 Hturn Heq.
      eapply turnTrace_sleep; eassumption.
Qed.

End Further.

(** * The scenario, run *)

Section ScenarioRuns.

Import Scenario.
Local Open Scope string_scope.

(** The key is absent and the claim of ["A"] is written. *)
Lemma run_claim_empty :
  Run (Update fresh "A") []
      [EvReadKey callTimeout leaderKey zeroRecord (Some ErrKeyNotFound);
       EvNow at50;
       EvWriteTransaction callTimeout (claim "A" 52 ifEmpty) None]
      ({| lastTTL := 52; leading := true; key := leaderKey; ttl := lease |},
       ("A", true, Second, None)).
Proof.
  apply (@play_sound _ _ _ 10 _
           [AnsReadKey zeroRecord (Some ErrKeyNotFound);
                        AnsNow at50;
                        AnsWriteTransaction None]).
  vm_compute. reflexivity.
Qed.

(** The key is absent and the write of the claim times out. *)
Lemma run_claim_times_out :
  Run (Update fresh "A") []
      [EvReadKey callTimeout leaderKey zeroRecord (Some ErrKeyNotFound);
       EvNow at50;
       EvWriteTransaction callTimeout (claim "A" 52 ifEmpty) (Some ErrTimeout)]
      (fresh, ("", false, 0, Some ErrTimeout)).
Proof.
  apply (@play_sound _ _ _ 10 _
           [AnsReadKey zeroRecord (Some ErrKeyNotFound);
                        AnsNow at50;
                        AnsWriteTransaction (Some ErrTimeout)]).
  vm_compute. reflexivity.
Qed.

(** ["A"] leads until second 52 and the clock of ["B"] is already in
    that second: the delay is raised to 500ms. *)
Lemma run_foreign_leader :
  Run (Update fresh "B") []
      [EvReadKey callTimeout leaderKey {| Data := "A"; TTL := 52 |} None;
       EvNow (Unix 52 300000000)]
      ({| lastTTL := 52; leading := false; key := leaderKey; ttl := lease |},
       ("A", false, 500 * Millisecond, None)).
Proof.
  apply (@play_sound _ _ _ 10 _
           [AnsReadKey {| Data := "A"; TTL := 52 |} None;
                        AnsNow (Unix 52 300000000)]).
  vm_compute. reflexivity.
Qed.

(** ["B"] finds the key absent, loses the race for it, sleeps, and then
    finds ["A"] leading until second 52. *)
Lemma run_lost_race :
  Run (Update fresh "B") []
      [EvReadKey callTimeout leaderKey zeroRecord (Some ErrKeyNotFound);
       EvNow at50;
       EvWriteTransaction callTimeout (claim "B" 52 ifEmpty)
                          (Some ErrPreconditionFailed);
       EvCtxErr None;
       EvSleep (500 * Millisecond);
       EvReadKey callTimeout leaderKey {| Data := "A"; TTL := 52 |} None;
       EvNow (Unix 50 500000000)]
      ({| lastTTL := 52; leading := false; key := leaderKey; ttl := lease |},
       ("A", false, 1500 * Millisecond, None)).
Proof.
  apply (@play_sound _ _ _ 20 _
           [AnsReadKey zeroRecord (Some ErrKeyNotFound);
                        AnsNow at50;
                        AnsWriteTransaction (Some ErrPreconditionFailed);
                        AnsCtxErr None;
                        AnsSleep;
                        AnsReadKey {| Data := "A"; TTL := 52 |} None;
                        AnsNow (Unix 50 500000000)]).
  vm_compute. reflexivity.
Qed.

(** A restarted ["A"] finds its own record, valid until second 100,
    and renews it. *)
Lemma run_restart_renews :
  Run (Update fresh "A") []
      [EvReadKey callTimeout leaderKey recordA None;
       EvNow at50;
       EvNow at50;
       EvWriteTransaction callTimeout (claim "A" 52 (ifTTL 100)) None]
      ({| lastTTL := 52; leading := true; key := leaderKey; ttl := lease |},
       ("A", true, Second, None)).
Proof.
  apply (@play_sound _ _ _ 10 _
           [AnsReadKey recordA None;
                        AnsNow at50;
                        AnsNow at50;
                        AnsWriteTransaction None]).
  vm_compute. reflexivity.
Qed.

(** The same, but the write of the renewal times out. *)
Lemma run_restart_times_out :
  Run (Update fresh "A") []
      [EvReadKey callTimeout leaderKey recordA None;
       EvNow at50;
       EvNow at50;
       EvWriteTransaction callTimeout (claim "A" 52 (ifTTL 100)) (Some ErrTimeout)]
      (leader100, ("", false, 0, Some ErrTimeout)).
Proof.
  apply (@play_sound _ _ _ 10 _
           [AnsReadKey recordA None;
                        AnsNow at50;
                        AnsNow at50;
                        AnsWriteTransaction (Some ErrTimeout)]).
  vm_compute. reflexivity.
Qed.

(** The read of the key times out, and ["B"] claims the key all the same. *)
Lemma run_read_times_out :
  Run (Update fresh "B") []
      [EvReadKey callTimeout leaderKey zeroRecord (Some ErrTimeout);
       EvNow at50;
       EvNow at50;
       EvWriteTransaction callTimeout (claim "B" 52 (ifTTL 0)) None]
      ({| lastTTL := 52; leading := true; key := leaderKey; ttl := lease |},
       ("B", true, Second, None)).
Proof.
  apply (@play_sound _ _ _ 10 _
           [AnsReadKey zeroRecord (Some ErrTimeout);
                        AnsNow at50;
                        AnsNow at50;
                        AnsWriteTransaction None]).
  vm_compute. reflexivity.
Qed.

End ScenarioRuns.

(** * The claims on the scenario *)

Section Witnesses.

Import Scenario.
Local Open Scope string_scope.
Local Open Scope list_scope.

Local Abbreviation log_t := (list (entry string storeError)).

Lemma tryBecomeLeader_transaction_witness :
  Run (tryBecomeLeader (error := storeError) fresh "A" true) []
      [EvNow at50; EvWriteTransaction callTimeout (claim "A" 52 ifEmpty) None]
      ({| lastTTL := 52; leading := true; key := leaderKey; ttl := lease |}, None).
Proof.
  apply (proj2 (@tryBecomeLeader_transaction _ _ fresh _ "A" true [] _ None)).
  exists at50. split; reflexivity.
Defined.

Lemma Read_result_witness :
  Run (Read fresh) []
      ([EvReadKey callTimeout leaderKey zeroRecord (Some ErrKeyNotFound)] : log_t)
      (fresh, ("", None)).
Proof.
  apply (proj2 (@Read_result _ _ _ _ fresh fresh [] _ "" None)).
  exists zeroRecord, (Some ErrKeyNotFound). repeat split.
Defined.

Lemma Read_keeps_cell_witness :
  Run (Read leader100) []
      ([EvReadKey callTimeout leaderKey zeroRecord (Some ErrTimeout)] : log_t)
      (leader100, ("", Some ErrTimeout)) /\
  (lastTTL leader100 = 100 /\ leading leader100 = true /\
   key leader100 = leaderKey /\ ttl leader100 = lease).
Proof.
  split; [exact (Read_run leader100 [] zeroRecord (Some ErrTimeout)) |].
  exact (Read_keeps_cell _ (Read_run leader100 [] zeroRecord (Some ErrTimeout))).
Defined.

Lemma Resign_result_witness :
  Run (Resign leader100) []
      ([EvWriteTransaction callTimeout
          {| keys := [NewKeyDelete leaderKey]; conditions := [ifTTL 100] |}
          (Some ErrPreconditionFailed)] : log_t)
      (set_leading leader100 false, None) /\
  Run (Resign (set_leading leader100 false))
      ([EvWriteTransaction callTimeout
          {| keys := [NewKeyDelete leaderKey]; conditions := [ifTTL 100] |}
          (Some ErrPreconditionFailed)] : log_t)
      [EvWriteTransaction callTimeout
         {| keys := [NewKeyDelete leaderKey]; conditions := [ifTTL 100] |}
         (Some ErrPreconditionFailed)]
      (set_leading leader100 false, None).
Proof.
  assert (Hfirst :
    Run (Resign leader100) []
        ([EvWriteTransaction callTimeout
            {| keys := [NewKeyDelete leaderKey]; conditions := [ifTTL 100] |}
            (Some ErrPreconditionFailed)] : log_t)
        (set_leading leader100 false, None)).
  { apply (proj2 (proj1 (@Resign_result _ _ _ leader100 _ [] _ None))).
    exists (Some ErrPreconditionFailed). repeat split. }
  split; [exact Hfirst |].
  apply (proj2 (proj2 (@Resign_result _ _ _ leader100 _ [] _ None) Hfirst _ _ _)).
  repeat split.
Defined.

Lemma Update_error_result_witness :
  Run (Update fresh "A") []
      [EvReadKey callTimeout leaderKey zeroRecord (Some ErrKeyNotFound);
       EvNow at50;
       EvWriteTransaction callTimeout (claim "A" 52 ifEmpty) (Some ErrTimeout)]
      (fresh, ("", false, 0, Some ErrTimeout)) /\
  ("" = def /\ false = false /\ 0 = 0).
Proof.
  split; [exact run_claim_times_out |].
  exact (Update_error_result _ _ run_claim_times_out).
Defined.

Lemma Update_backoff_floor_witness :
  Run (Update fresh "B") []
      [EvReadKey callTimeout leaderKey {| Data := "A"; TTL := 52 |} None;
       EvNow (Unix 52 300000000)]
      ({| lastTTL := 52; leading := false; key := leaderKey; ttl := lease |},
       ("A", false, 500 * Millisecond, None)) /\
  exists pre result rerr now,
    ([EvReadKey callTimeout leaderKey {| Data := "A"; TTL := 52 |} None;
      EvNow (Unix 52 300000000)] : log_t)
    = pre ++ [EvReadKey callTimeout leaderKey result rerr; EvNow now] /\
    Time_Unix now <= TTL result /\
    "A" = Data result /\
    500 * Millisecond = Z.max (500 * Millisecond) (Time_Sub (Unix (TTL result) 0) now) /\
    500 * Millisecond <= 500 * Millisecond /\
    0 < 500 * Millisecond /\
    (- 2 ^ 63 <= TTL result < 2 ^ 63 - unixToInternal ->
     (TTL result * Second - now <= maxDuration ->
      500 * Millisecond = Z.max (500 * Millisecond) (TTL result * Second - now)) /\
     (maxDuration < TTL result * Second - now -> 500 * Millisecond = maxDuration)) /\
    (2 ^ 63 - unixToInternal <= TTL result < 2 ^ 63 ->
     0 <= now ->
     500 * Millisecond = 500 * Millisecond).
Proof.
  split; [exact run_foreign_leader |].
  exact (Update_backoff_floor _ _ run_foreign_leader).
Defined.

(** C5 as it was stated fails where the time that remains does not fit a
    [Duration], or [time.Unix] wraps around.  ["B"] reads the record of
    ["A"] at second 50.  When the record expires 10^10 seconds later, the
    delay returned is the longest [Duration], which is less than the time
    that remains.  When the expiry of the record is the largest int64, the
    record has not expired, [time.Unix] wraps around to an instant long
    before the clock reading, and the delay returned is 500ms. *)
Lemma Update_backoff_counterexample :
  Run (Update fresh "B") []
      [EvReadKey callTimeout leaderKey {| Data := "A"; TTL := 50 + 10 ^ 10 |} None;
       EvNow at50]
      ({| lastTTL := 50 + 10 ^ 10; leading := false; key := leaderKey; ttl := lease |},
       ("A", false, maxDuration, None)) /\
  maxDuration < Z.max (500 * Millisecond) ((50 + 10 ^ 10) * Second - at50) /\
  Run (Update fresh "B") []
      [EvReadKey callTimeout leaderKey {| Data := "A"; TTL := 2 ^ 63 - 1 |} None;
       EvNow at50]
      ({| lastTTL := 2 ^ 63 - 1; leading := false; key := leaderKey; ttl := lease |},
       ("A", false, 500 * Millisecond, None)) /\
  Time_Unix at50 < 2 ^ 63 - 1 /\
  500 * Millisecond < Z.max (500 * Millisecond) ((2 ^ 63 - 1) * Second - at50).
Proof.
  split.
  { apply (@play_sound _ _ _ 10 _
             [AnsReadKey {| Data := "A"; TTL := 50 + 10 ^ 10 |} None; AnsNow at50]).
    vm_compute. reflexivity. }
  split; [reflexivity |].
  split.
  { apply (@play_sound _ _ _ 10 _
             [AnsReadKey {| Data := "A"; TTL := 2 ^ 63 - 1 |} None; AnsNow at50]).
    vm_compute. reflexivity. }
  split; reflexivity.
Qed.

Lemma Update_claim_succeeds_witness :
  Run (Update fresh "A") []
      [EvReadKey callTimeout leaderKey zeroRecord (Some ErrKeyNotFound);
       EvNow at50;
       EvWriteTransaction callTimeout (claim "A" 52 ifEmpty) (Some ErrTimeout)]
      (fresh, ("", false, 0, Some ErrTimeout)) /\
  exists pre0 now,
    ([EvReadKey callTimeout leaderKey zeroRecord (Some ErrKeyNotFound); EvNow at50]
     : log_t) = pre0 ++ [EvNow now] /\
    keys (claim "A" 52 ifEmpty)
    = [NewKeySet leaderKey {| Data := "A"; TTL := Time_Unix (Time_Add now lease) |} 0] /\
    Run (Update fresh "A") []
        [EvReadKey callTimeout leaderKey zeroRecord (Some ErrKeyNotFound);
         EvNow at50;
         EvWriteTransaction callTimeout (claim "A" 52 ifEmpty) None]
        ({| lastTTL := Time_Unix (Time_Add now lease); leading := true;
            key := leaderKey; ttl := lease |},
         ("A", true, Z.quot lease 2, None)) /\
    forall post' r',
      Run (Update fresh "A") []
          ([EvReadKey callTimeout leaderKey zeroRecord (Some ErrKeyNotFound);
            EvNow at50]
           ++ EvWriteTransaction callTimeout (claim "A" 52 ifEmpty) None :: post') r' ->
      post' = [] /\
      r' = ({| lastTTL := Time_Unix (Time_Add now lease); leading := true;
               key := leaderKey; ttl := lease |},
            ("A", true, Z.quot lease 2, None)).
Proof.
  split; [exact run_claim_times_out |].
  exact (@Update_claim_succeeds _ _ _ _ fresh "A" []
           [EvReadKey callTimeout leaderKey zeroRecord (Some ErrKeyNotFound); EvNow at50]
           [] _ callTimeout (claim "A" 52 ifEmpty) (Some ErrTimeout)
           run_claim_times_out).
Defined.

Lemma Update_claim_fails_witness :
  Run (Update fresh "B") []
      [EvReadKey callTimeout leaderKey zeroRecord (Some ErrKeyNotFound);
       EvNow at50;
       EvWriteTransaction callTimeout (claim "B" 52 ifEmpty)
                          (Some ErrPreconditionFailed);
       EvCtxErr None;
       EvSleep (500 * Millisecond);
       EvReadKey callTimeout leaderKey {| Data := "A"; TTL := 52 |} None;
       EvNow (Unix 50 500000000)]
      ({| lastTTL := 52; leading := false; key := leaderKey; ttl := lease |},
       ("A", false, 1500 * Millisecond, None)) /\
  (* the context is done: the error of the write is returned *)
  (forall c, exists l',
      Run (Update fresh "B") []
          [EvReadKey callTimeout leaderKey zeroRecord (Some ErrKeyNotFound);
           EvNow at50;
           EvWriteTransaction callTimeout (claim "B" 52 ifEmpty)
                              (Some ErrPreconditionFailed);
           EvCtxErr (Some c)]
          (l', ("", false, 0, Some ErrPreconditionFailed))) /\
  (* the context is not done: sleep, then [Update] again *)
  (exists l1, forall (log' : log_t) r',
      Run (Update l1 "B")
          [EvReadKey callTimeout leaderKey zeroRecord (Some ErrKeyNotFound);
           EvNow at50;
           EvWriteTransaction callTimeout (claim "B" 52 ifEmpty)
                              (Some ErrPreconditionFailed);
           EvCtxErr None;
           EvSleep (500 * Millisecond)]
          log' r' ->
      Run (Update fresh "B") [] log' r').
Proof.
  split; [exact run_lost_race |].
  pose proof (@Update_claim_fails _ _ _ _ fresh "B" []
                [EvReadKey callTimeout leaderKey zeroRecord (Some ErrKeyNotFound);
                 EvNow at50]
                _ _ callTimeout (claim "B" 52 ifEmpty) _ ErrPreconditionFailed
                run_lost_race) as Hfails.
  cbn in Hfails. destruct Hfails as (Hdone & Hagain & _).
  split; [exact Hdone | exact Hagain].
Defined.

Lemma Update_bootstrap_renews_witness :
  Time_Unix at50 < TTL recordA /\
  DeepEqual (Data recordA) "A" = true /\
  Run (Update (NewLeaderElectionCell leaderKey lease) "A") []
      [EvReadKey callTimeout leaderKey recordA None;
       EvNow at50;
       EvNow at50;
       EvWriteTransaction callTimeout (claim "A" 52 (ifTTL 100)) None]
      ({| lastTTL := 52; leading := true; key := leaderKey; ttl := lease |},
       ("A", true, Second, None)).
Proof.
  split; [reflexivity |].
  split; [reflexivity |].
  exact (proj1 (@Update_bootstrap_renews _ _ _ _ leaderKey lease "A" [] recordA at50
                  eq_refl eq_refl) at50).
Defined.

(** C1 as it was stated fails: the restarted ["A"] finds its own
    record (expiry 100, clock at second 50) and its first [Update] issues a
    write transaction; when that write times out [Update] returns an error
    and no leadership, and when it succeeds the leadership it returns came
    through the write. *)
Lemma Update_bootstrap_counterexample :
  Time_Unix at50 < TTL recordA /\
  DeepEqual (Data recordA) "A" = true /\
  Run (Update (NewLeaderElectionCell leaderKey lease) "A") []
      [EvReadKey callTimeout leaderKey recordA None;
       EvNow at50;
       EvNow at50;
       EvWriteTransaction callTimeout (claim "A" 52 (ifTTL 100)) (Some ErrTimeout)]
      (leader100, ("", false, 0, Some ErrTimeout)) /\
  Run (Update (NewLeaderElectionCell leaderKey lease) "A") []
      [EvReadKey callTimeout leaderKey recordA None;
       EvNow at50;
       EvNow at50;
       EvWriteTransaction callTimeout (claim "A" 52 (ifTTL 100)) None]
      ({| lastTTL := 52; leading := true; key := leaderKey; ttl := lease |},
       ("A", true, Second, None)) /\
  existsb isWrite
    ([EvReadKey callTimeout leaderKey recordA None;
      EvNow at50;
      EvNow at50;
      EvWriteTransaction callTimeout (claim "A" 52 (ifTTL 100)) None] : log_t)
  = true.
Proof.
  split; [reflexivity |].
  split; [reflexivity |].
  split; [exact run_restart_times_out |].
  split; [exact run_restart_renews | reflexivity].
Qed.

(** C2, at an input where the code does otherwise.  The read of the
    key fails with a timeout, which is not the not-found kind, and leaves
    the zero record in [result]; [Update] does not return that error: it
    reads the clock, takes the zero record for an expired one, issues a
    claim under the condition that the ttl field is 0 and, the write
    succeeding, returns leadership and no error. *)
Theorem Update_read_error_is_dropped :
  IsKeyNotFound ErrTimeout = false /\
  Run (Update fresh "B") []
      [EvReadKey callTimeout leaderKey zeroRecord (Some ErrTimeout);
       EvNow at50;
       EvNow at50;
       EvWriteTransaction callTimeout (claim "B" 52 (ifTTL 0)) None]
      ({| lastTTL := 52; leading := true; key := leaderKey; ttl := lease |},
       ("B", true, Second, None)).
Proof.
  split; [reflexivity | exact run_read_times_out].
Qed.

End Witnesses.

(** * The further properties on the scenario *)

Section FurtherWitnesses.

Import Scenario.
Local Open Scope string_scope.
Local Open Scope list_scope.

Local Abbreviation log_t := (list (entry string storeError)).

(** An attempt on the empty key, written at second 50. *)
Lemma run_attempt :
  Run (tryBecomeLeader (error := storeError) fresh "A" true) []
      [EvNow at50; EvWriteTransaction callTimeout (claim "A" 52 ifEmpty) None]
      ({| lastTTL := 52; leading := true; key := leaderKey; ttl := lease |}, None).
Proof.
  apply (@play_sound _ _ _ 10 _ [AnsNow at50; AnsWriteTransaction None]).
  vm_compute. reflexivity.
Qed.

Lemma Update_keeps_key_and_lease_witness :
  Run (Update fresh "B") []
      [EvReadKey callTimeout leaderKey zeroRecord (Some ErrKeyNotFound);
       EvNow at50;
       EvWriteTransaction callTimeout (claim "B" 52 ifEmpty)
                          (Some ErrPreconditionFailed);
       EvCtxErr None;
       EvSleep (500 * Millisecond);
       EvReadKey callTimeout leaderKey {| Data := "A"; TTL := 52 |} None;
       EvNow (Unix 50 500000000)]
      ({| lastTTL := 52; leading := false; key := leaderKey; ttl := lease |},
       ("A", false, 1500 * Millisecond, None)) /\
  (leaderKey = key fresh /\ lease = ttl fresh).
Proof.
  split; [exact run_lost_race |].
  exact (@Update_keeps_key_and_lease _ _ _ _ _ _ _ _ _ _ run_lost_race).
Defined.

Lemma Update_leader_result_witness :
  Run (Update fresh "A") []
      [EvReadKey callTimeout leaderKey zeroRecord (Some ErrKeyNotFound);
       EvNow at50;
       EvWriteTransaction callTimeout (claim "A" 52 ifEmpty) None]
      ({| lastTTL := 52; leading := true; key := leaderKey; ttl := lease |},
       ("A", true, Second, None)) /\
  exists pre now trx,
    ([EvReadKey callTimeout leaderKey zeroRecord (Some ErrKeyNotFound);
      EvNow at50;
      EvWriteTransaction callTimeout (claim "A" 52 ifEmpty) None] : log_t)
    = pre ++ [EvNow now; EvWriteTransaction callTimeout trx None] /\
    keys trx = [NewKeySet leaderKey
                  {| Data := "A"; TTL := Time_Unix (Time_Add now lease) |} 0] /\
    {| lastTTL := 52; leading := true; key := leaderKey; ttl := lease |}
    = {| lastTTL := Time_Unix (Time_Add now lease); leading := true;
         key := leaderKey; ttl := lease |} /\
    "A" = "A" /\ Second = Z.quot lease 2 /\ (None : option storeError) = None.
Proof.
  split; [exact run_claim_empty |].
  exact (@Update_leader_result _ _ _ _ _ _ _ _ _ _ _ _ run_claim_empty).
Defined.

Lemma Update_belief_matches_result_witness :
  Run (Update fresh "B") []
      [EvReadKey callTimeout leaderKey {| Data := "A"; TTL := 52 |} None;
       EvNow (Unix 52 300000000)]
      ({| lastTTL := 52; leading := false; key := leaderKey; ttl := lease |},
       ("A", false, 500 * Millisecond, None)) /\
  leading {| lastTTL := 52; leading := false; key := leaderKey; ttl := lease |} = false.
Proof.
  split; [exact run_foreign_leader |].
  exact (@Update_belief_matches_result _ _ _ _ _ _ _ _ _ _ _ _ run_foreign_leader).
Defined.

Lemma Update_absent_claims_witness :
  IsKeyNotFound ErrKeyNotFound = true /\
  attemptsAs fresh "A" []
    [EvReadKey callTimeout leaderKey zeroRecord (Some ErrKeyNotFound)] fresh true.
Proof.
  split; [reflexivity |].
  exact (@Update_absent_claims _ _ _ _ fresh "A" [] zeroRecord ErrKeyNotFound eq_refl).
Defined.

Lemma Update_expired_claims_witness :
  notFound (None : option storeError) = false /\
  TTL recordA < Time_Unix (Unix 200 0) /\
  attemptsAs leader100 "A" []
    [EvReadKey callTimeout leaderKey recordA None; EvNow (Unix 200 0)]
    {| lastTTL := 100; leading := false; key := leaderKey; ttl := lease |} false.
Proof.
  split; [reflexivity |].
  split; [reflexivity |].
  exact (@Update_expired_claims _ _ _ _ leader100 "A" [] recordA None (Unix 200 0)
           eq_refl eq_refl).
Defined.

Lemma Update_renews_own_lease_witness :
  notFound (None : option storeError) = false /\
  leading leader100 = true /\
  lastTTL leader100 = TTL recordA /\
  Time_Unix at50 <= TTL recordA /\
  attemptsAs leader100 "A" []
    [EvReadKey callTimeout leaderKey recordA None; EvNow at50] leader100 false.
Proof.
  assert (Hvalid : Time_Unix at50 <= TTL recordA).
  { vm_compute. discriminate. }
  split; [reflexivity |].
  split; [reflexivity |].
  split; [reflexivity |].
  split; [exact Hvalid |].
  exact (@Update_renews_own_lease _ _ _ _ leader100 "A" [] recordA None at50
           eq_refl eq_refl eq_refl Hvalid).
Defined.

Lemma Update_defers_to_leader_witness :
  notFound (None : option storeError) = false /\
  Time_Unix (Unix 52 300000000) <= 52 /\
  DeepEqual "A" "B" = false /\
  Run (Update fresh "B") []
      [EvReadKey callTimeout leaderKey {| Data := "A"; TTL := 52 |} None;
       EvNow (Unix 52 300000000)]
      ({| lastTTL := 52; leading := false; key := leaderKey; ttl := lease |},
       ("A", false,
        Z.max minUpdateDelay (Time_Sub (Unix 52 0) (Unix 52 300000000)), None)).
Proof.
  assert (Hvalid : Time_Unix (Unix 52 300000000) <= 52).
  { vm_compute. discriminate. }
  split; [reflexivity |].
  split; [exact Hvalid |].
  split; [reflexivity |].
  refine (proj1 (@Update_defers_to_leader _ _ _ _ fresh "B" []
                   {| Data := "A"; TTL := 52 |} None (Unix 52 300000000)
                   eq_refl Hvalid _)).
  cbn. intros (_ & _ & Hequal). discriminate Hequal.
Defined.

Lemma Update_then_Resign_witness :
  Run (Update fresh "A") []
      [EvReadKey callTimeout leaderKey zeroRecord (Some ErrKeyNotFound);
       EvNow at50;
       EvWriteTransaction callTimeout (claim "A" 52 ifEmpty) None]
      ({| lastTTL := 52; leading := true; key := leaderKey; ttl := lease |},
       ("A", true, Second, None)) /\
  exists pre now trx,
    ([EvReadKey callTimeout leaderKey zeroRecord (Some ErrKeyNotFound);
      EvNow at50;
      EvWriteTransaction callTimeout (claim "A" 52 ifEmpty) None] : log_t)
    = pre ++ [EvNow now; EvWriteTransaction callTimeout trx None] /\
    keys trx = [NewKeySet leaderKey
                  {| Data := "A"; TTL := Time_Unix (Time_Add now lease) |} 0] /\
    forall l2 (log2 : log_t) rerr,
      Run (Resign {| lastTTL := 52; leading := true; key := leaderKey; ttl := lease |})
          [EvReadKey callTimeout leaderKey zeroRecord (Some ErrKeyNotFound);
           EvNow at50;
           EvWriteTransaction callTimeout (claim "A" 52 ifEmpty) None]
          log2 (l2, rerr) <->
      exists werr,
        log2 =
          [EvReadKey callTimeout leaderKey zeroRecord (Some ErrKeyNotFound);
           EvNow at50;
           EvWriteTransaction callTimeout (claim "A" 52 ifEmpty) None] ++
          [EvWriteTransaction callTimeout
             {| keys := [NewKeyDelete leaderKey];
                conditions := [ifTTL (Time_Unix (Time_Add now lease))] |}
             werr] /\
        l2 = {| lastTTL := Time_Unix (Time_Add now lease); leading := false;
                key := leaderKey; ttl := lease |} /\
        rerr = match werr with
               | Some e => if IsPreconditionFailed e then None else Some e
               | None => None
               end.
Proof.
  split; [exact run_claim_empty |].
  exact (@Update_then_Resign _ _ _ _ _ _ _ _ _ _ _ _ run_claim_empty).
Defined.

Lemma Update_log_entries_witness :
  Run (Update fresh "B") []
      [EvReadKey callTimeout leaderKey zeroRecord (Some ErrKeyNotFound);
       EvNow at50;
       EvWriteTransaction callTimeout (claim "B" 52 ifEmpty)
                          (Some ErrPreconditionFailed);
       EvCtxErr None;
       EvSleep (500 * Millisecond);
       EvReadKey callTimeout leaderKey {| Data := "A"; TTL := 52 |} None;
       EvNow (Unix 50 500000000)]
      ({| lastTTL := 52; leading := false; key := leaderKey; ttl := lease |},
       ("A", false, 1500 * Millisecond, None)) /\
  Forall (updateEntry leaderKey "B")
    ([EvReadKey callTimeout leaderKey zeroRecord (Some ErrKeyNotFound);
      EvNow at50;
      EvWriteTransaction callTimeout (claim "B" 52 ifEmpty)
                         (Some ErrPreconditionFailed);
      EvCtxErr None;
      EvSleep (500 * Millisecond);
      EvReadKey callTimeout leaderKey {| Data := "A"; TTL := 52 |} None;
      EvNow (Unix 50 500000000)] : log_t).
Proof.
  split; [exact run_lost_race |].
  exact (@Update_log_entries _ _ _ _ fresh "B" [] _ _ run_lost_race).
Defined.

Lemma Update_sleeps_between_reads_witness :
  Run (Update fresh "B") []
      [EvReadKey callTimeout leaderKey zeroRecord (Some ErrKeyNotFound);
       EvNow at50;
       EvWriteTransaction callTimeout (claim "B" 52 ifEmpty)
                          (Some ErrPreconditionFailed);
       EvCtxErr None;
       EvSleep (500 * Millisecond);
       EvReadKey callTimeout leaderKey {| Data := "A"; TTL := 52 |} None;
       EvNow (Unix 50 500000000)]
      ({| lastTTL := 52; leading := false; key := leaderKey; ttl := lease |},
       ("A", false, 1500 * Millisecond, None)) /\
  (2 = S 1 /\ 1 <= 1 /\ 1 <= 2)%nat.
Proof.
  split; [exact run_lost_race |].
  exact (@Update_sleeps_between_reads _ _ _ _ fresh "B" [] _ _ run_lost_race).
Defined.

Lemma Update_delay_nonneg_witness :
  0 <= ttl fresh /\
  Run (Update fresh "B") []
      [EvReadKey callTimeout leaderKey {| Data := "A"; TTL := 52 |} None;
       EvNow (Unix 52 300000000)]
      ({| lastTTL := 52; leading := false; key := leaderKey; ttl := lease |},
       ("A", false, 500 * Millisecond, None)) /\
  0 <= 500 * Millisecond.
Proof.
  assert (Hlease : 0 <= ttl fresh).
  { vm_compute. discriminate. }
  split; [exact Hlease |].
  split; [exact run_foreign_leader |].
  exact (@Update_delay_nonneg _ _ _ _ _ _ _ _ _ _ _ _ _ Hlease run_foreign_leader).
Defined.

Lemma Update_single_turn_witness :
  Run (Update fresh "A") []
      [EvReadKey callTimeout leaderKey zeroRecord (Some ErrKeyNotFound);
       EvNow at50;
       EvWriteTransaction callTimeout (claim "A" 52 ifEmpty) (Some ErrTimeout)]
      (fresh, ("", false, 0, Some ErrTimeout)) /\
  (1 = 1 /\ 3 <= 4)%nat.
Proof.
  split; [exact run_claim_times_out |].
  refine (@Update_single_turn _ _ _ _ fresh "A" [] _ _ run_claim_times_out _).
  intros timeout trx e Hin. cbn in Hin.
  destruct Hin as [Hin | [Hin | [Hin | []]]]; try discriminate Hin.
  inversion Hin. reflexivity.
Defined.

Lemma tryBecomeLeader_expiry_bounds_witness :
  Run (tryBecomeLeader (error := storeError) fresh "A" true) []
      [EvNow at50; EvWriteTransaction callTimeout (claim "A" 52 ifEmpty) None]
      ({| lastTTL := 52; leading := true; key := leaderKey; ttl := lease |}, None) /\
  exists now trx,
    ([EvNow at50; EvWriteTransaction callTimeout (claim "A" 52 ifEmpty) None] : log_t)
    = [EvNow now; EvWriteTransaction callTimeout trx None] /\
    Time_Unix now + lease / Second <= 52 <= Time_Unix now + lease / Second + 1 /\
    (Second <= lease -> Time_Unix now < 52).
Proof.
  split; [exact run_attempt |].
  exact (@tryBecomeLeader_expiry_bounds _ _ _ _ _ _ _ _ run_attempt).
Defined.

Lemma Update_error_ends_the_log_witness :
  Run (Update fresh "A") []
      [EvReadKey callTimeout leaderKey zeroRecord (Some ErrKeyNotFound);
       EvNow at50;
       EvWriteTransaction callTimeout (claim "A" 52 ifEmpty) (Some ErrTimeout)]
      (fresh, ("", false, 0, Some ErrTimeout)) /\
  exists pre timeout trx,
    ([EvReadKey callTimeout leaderKey zeroRecord (Some ErrKeyNotFound);
      EvNow at50;
      EvWriteTransaction callTimeout (claim "A" 52 ifEmpty) (Some ErrTimeout)] : log_t)
    = pre ++ [EvWriteTransaction timeout trx (Some ErrTimeout)].
Proof.
  split; [exact run_claim_times_out |].
  exact (@Update_error_ends_the_log _ _ _ _ fresh _ "A" _ [] _ _ _ _
           run_claim_times_out).
Defined.

Lemma Update_asks_context_after_lost_race_witness :
  Run (Update fresh "B") []
      [EvReadKey callTimeout leaderKey zeroRecord (Some ErrKeyNotFound);
       EvNow at50;
       EvWriteTransaction callTimeout (claim "B" 52 ifEmpty)
                          (Some ErrPreconditionFailed);
       EvCtxErr None;
       EvSleep (500 * Millisecond);
       EvReadKey callTimeout leaderKey {| Data := "A"; TTL := 52 |} None;
       EvNow (Unix 50 500000000)]
      ({| lastTTL := 52; leading := false; key := leaderKey; ttl := lease |},
       ("A", false, 1500 * Millisecond, None)) /\
  (forall (pre : log_t) c post,
      [EvReadKey callTimeout leaderKey zeroRecord (Some ErrKeyNotFound);
       EvNow at50;
       EvWriteTransaction callTimeout (claim "B" 52 ifEmpty)
                          (Some ErrPreconditionFailed);
       EvCtxErr None;
       EvSleep (500 * Millisecond);
       EvReadKey callTimeout leaderKey {| Data := "A"; TTL := 52 |} None;
       EvNow (Unix 50 500000000)]
      = pre ++ EvCtxErr c :: post ->
      exists pre' timeout trx e,
        pre = pre' ++ [EvWriteTransaction timeout trx (Some e)] /\
        IsPreconditionFailed e = true) /\
  (forall (pre : log_t) d post,
      [EvReadKey callTimeout leaderKey zeroRecord (Some ErrKeyNotFound);
       EvNow at50;
       EvWriteTransaction callTimeout (claim "B" 52 ifEmpty)
                          (Some ErrPreconditionFailed);
       EvCtxErr None;
       EvSleep (500 * Millisecond);
       EvReadKey callTimeout leaderKey {| Data := "A"; TTL := 52 |} None;
       EvNow (Unix 50 500000000)]
      = pre ++ EvSleep d :: post ->
      exists pre', pre = pre' ++ [EvCtxErr None]).
Proof.
  split; [exact run_lost_race |].
  exact (@Update_asks_context_after_lost_race _ _ _ _ fresh "B" [] _ _ run_lost_race).
Defined.

End FurtherWitnesses.
